(** * cfrt: a round tripper that answers the Cloudflare "I'm under attack" page

    Shallow embedding of [cfrt/roundtripper.go] and proofs of the properties
    its specification states.

    Go strings are byte strings: they are modelled by [string], whose
    characters are the 256 values of [ascii].  Go maps with string keys
    ([http.Header], [url.Values]) are modelled by [gmap string (list string)].
    A [float64] is a primitive binary64 [float]. *)

From Stdlib Require Import ZArith String Ascii List Lia DecimalString.
From Stdlib Require Import Floats.PrimFloat Floats.SpecFloat Floats.FloatOps.
From stdpp Require Import base option list sorting gmap strings.

Set Default Proof Using "Type".
Set Warnings "-inexact-float".
Local Open Scope string_scope.
Local Open Scope list_scope.

(** ** Bytes and small string helpers *)

Definition byte_in (lo hi : nat) (c : ascii) : bool :=
  (lo <=? nat_of_ascii c)%nat && (nat_of_ascii c <=? hi)%nat.

Definition byte_is (n : nat) (c : ascii) : bool := (nat_of_ascii c =? n)%nat.

Definition NL : ascii := ascii_of_nat 10.
Definition DQUOTE : ascii := ascii_of_nat 34.

(** [nl] and [dq] are the one-byte strings holding a line feed and a double
    quote. *)
Definition nl : string := String NL "".
Definition dq : string := String DQUOTE "".

Fixpoint string_filter (p : ascii -> bool) (s : string) : string :=
  match s with
  | EmptyString => ""
  | String c t => if p c then String c (string_filter p t) else string_filter p t
  end.

Fixpoint string_forall (p : ascii -> bool) (s : string) : bool :=
  match s with
  | EmptyString => true
  | String c t => p c && string_forall p t
  end.

(** [contains sub s]: [sub] occurs in [s] (Go's [strings.Contains]). *)
Fixpoint contains (sub s : string) : bool :=
  String.prefix sub s ||
  match s with
  | EmptyString => false
  | String _ t => contains sub t
  end.

(** ** Package regexp

    The expressions of the program need literals, byte classes, a class
    repeated [min] or more times (greedy or lazy), an optional byte, an
    alternation, concatenation and one capture group.  Matching is
    leftmost-first, the match a backtracking engine finds first, as Go's
    [regexp] documents.  Every class used is a class of ASCII bytes or its
    complement, and every literal is ASCII, so matching bytes and matching
    UTF-8 runes find the same matches. *)

Module regexp.

Inductive Regexp : Type :=
| Lit (s : string)
| Class (p : ascii -> bool)
| Rep (p : ascii -> bool) (min : nat) (greedy : bool)
| Opt (p : ascii -> bool)
| Alt (r1 r2 : Regexp)
| Cat (r1 r2 : Regexp)
| Group (r : Regexp).

(** The classes of the program's expressions. *)
Definition space (c : ascii) : bool :=            (* \s = [\t\n\f\r ] *)
  byte_is 9 c || byte_is 10 c || byte_is 12 c || byte_is 13 c || byte_is 32 c.
Definition word (c : ascii) : bool :=             (* \w = [0-9A-Za-z_] *)
  byte_in 48 57 c || byte_in 65 90 c || byte_in 97 122 c || byte_is 95 c.
Definition dot (c : ascii) : bool := negb (byte_is 10 c).   (* . without flag s *)
Definition any (c : ascii) : bool := space c || negb (space c).  (* [\s\S] *)
Definition lower (c : ascii) : bool := byte_in 97 122 c.    (* [a-z] *)
Definition cr (c : ascii) : bool := byte_is 13 c.           (* \r *)

(** The result of a match attempt at one position: the text left after the
    match and the text of group 1, if the group took part. *)
Definition found : Type := string * option string.
Definition cont : Type := string -> option string -> option found.

Fixpoint lit (s inp : string) : option string :=
  match s, inp with
  | EmptyString, _ => Some inp
  | String a s', String b inp' => if Ascii.eqb a b then lit s' inp' else None
  | String _ _, EmptyString => None
  end.

Fixpoint rep {R : Type} (p : ascii -> bool) (greedy : bool) (min : nat)
    (inp : string) (k : string -> option R) : option R :=
  let stop := match min with O => k inp | S _ => None end in
  match inp with
  | EmptyString => stop
  | String c t =>
      if p c then
        if greedy then
          match rep p greedy (Nat.pred min) t k with
          | Some r => Some r
          | None => stop
          end
        else
          match stop with
          | Some r => Some r
          | None => rep p greedy (Nat.pred min) t k
          end
      else stop
  end.

Fixpoint run (r : Regexp) (inp : string) (g : option string) (k : cont)
    : option found :=
  match r with
  | Lit s =>
      match lit s inp with
      | Some rest => k rest g
      | None => None
      end
  | Class p =>
      match inp with
      | String c t => if p c then k t g else None
      | EmptyString => None
      end
  | Rep p min greedy => rep p greedy min inp (fun rest => k rest g)
  | Opt p =>
      match inp with
      | String c t =>
          if p c then
            match k t g with
            | Some x => Some x
            | None => k inp g
            end
          else k inp g
      | EmptyString => k inp g
      end
  | Alt r1 r2 =>
      match run r1 inp g k with
      | Some x => Some x
      | None => run r2 inp g k
      end
  | Cat r1 r2 => run r1 inp g (fun rest g' => run r2 rest g' k)
  | Group r1 =>
      run r1 inp g
        (fun rest _ =>
           k rest (Some (substring 0 (String.length inp - String.length rest) inp)))
  end.

(** A match anchored at the start of [inp]: the matched text, group 1 and
    the rest of the input. *)
Record Match : Type := mkMatch { whole : string; group1 : string; rest : string }.

Definition match_at (r : Regexp) (inp : string) : option Match :=
  match run r inp None (fun rest g => Some (rest, g)) with
  | Some (rest, g) =>
      Some (mkMatch (substring 0 (String.length inp - String.length rest) inp)
                    (default "" g) rest)
  | None => None
  end.

(** The leftmost match. *)
Fixpoint find (r : Regexp) (inp : string) : option Match :=
  match match_at r inp with
  | Some m => Some m
  | None =>
      match inp with
      | EmptyString => None
      | String _ t => find r t
      end
  end.

(** [FindStringSubmatch]: the match and its group, or the nil slice. *)
Definition FindStringSubmatch (r : Regexp) (s : string) : list string :=
  match find r s with
  | Some m => [whole m; group1 m]
  | None => []
  end.

(** Replacement templates: text and [$1]. *)
Inductive Item : Type :=
| Text (s : string)
| Dollar1.

Fixpoint expand (tmpl : list Item) (m : Match) : string :=
  match tmpl with
  | [] => ""
  | Text s :: tl => s +:+ expand tl m
  | Dollar1 :: tl => group1 m +:+ expand tl m
  end.

(** [ReplaceAllString]: the matches are taken left to right without
    overlap.  [skip] counts the bytes of the current match still to be
    dropped.  None of the program's expressions matches the empty string;
    a position with an empty match is copied like one without a match. *)
Fixpoint replace_from (r : Regexp) (tmpl : list Item) (skip : nat)
    (src : string) : string :=
  match src with
  | EmptyString => ""
  | String c t =>
      match skip with
      | S n => replace_from r tmpl n t
      | O =>
          match match_at r src with
          | Some m =>
              match String.length (whole m) with
              | O => String c (replace_from r tmpl 0 t)
              | S n => expand tmpl m +:+ replace_from r tmpl n t
              end
          | None => String c (replace_from r tmpl 0 t)
          end
      end
  end.

Definition ReplaceAllString (r : Regexp) (src : string) (tmpl : list Item)
    : string :=
  replace_from r tmpl 0 src.

End regexp.

(** ** Packages strings and strconv *)

Module strings.

Definition HasPrefix (s pre : string) : bool := String.prefix pre s.

(** [Replace s old new n] for a non-empty [old]: the first [n] occurrences,
    all of them when [n] is negative, left to right without overlap.
    [skip] counts the bytes of the current occurrence still to be dropped. *)
Fixpoint replace_from (old new : string) (n : option nat) (skip : nat)
    (s : string) : string :=
  match s with
  | EmptyString => ""
  | String c t =>
      match skip with
      | S k => replace_from old new n k t
      | O =>
          match n with
          | Some O => s
          | _ =>
              if String.prefix old s
              then new +:+ replace_from old new (option_map Nat.pred n)
                                        (Nat.pred (String.length old)) t
              else String c (replace_from old new n 0 t)
          end
      end
  end.

Definition Replace (s old new : string) (n : Z) : string :=
  replace_from old new (if (n <? 0)%Z then None else Some (Z.to_nat n)) 0 s.

End strings.

Module strconv.

Definition Itoa (n : nat) : string := NilZero.string_of_uint (Nat.to_uint n).

End strconv.

(** ** Errors *)

(** An [error] made by [errors.New] in this package carries its message; the
    errors of the transport, of [io], of [net/http] and of the script engine
    are foreign.  The package makes three errors, with three messages, so
    that comparing messages compares the values. *)
Inductive error : Type :=
| errorString (msg : string)
| foreignError (msg : string).

Inductive result (A : Type) : Type :=
| Ok (a : A)
| Err (e : error).
Arguments Ok {A} a.
Arguments Err {A} e.

(** ** The package's expressions *)

Import regexp.

(* name="jschl_vc" value="(\w+)" *)
Definition jschlRE : Regexp :=
  Cat (Lit ("name=" +:+ dq +:+ "jschl_vc" +:+ dq +:+ " value=" +:+ dq))
      (Cat (Group (Rep word 1 true)) (Lit dq)).

(* name="pass" value="(.+?)" *)
Definition passRE : Regexp :=
  Cat (Lit ("name=" +:+ dq +:+ "pass" +:+ dq +:+ " value=" +:+ dq))
      (Cat (Group (Rep dot 1 false)) (Lit dq)).

(* setTimeout\(function\(\){\s+(var s,t,o,p,b,r,e,a,k,i,n,g,f.+?\r?\n[\s\S]+?a\.value =.+?)\r?\n *)
Definition jsRE : Regexp :=
  Cat (Lit "setTimeout(function(){")
 (Cat (Rep space 1 true)
 (Cat (Group
        (Cat (Lit "var s,t,o,p,b,r,e,a,k,i,n,g,f")
        (Cat (Rep dot 1 false)
        (Cat (Opt cr)
        (Cat (Lit nl)
        (Cat (Rep any 1 false)
        (Cat (Lit "a.value =")
             (Rep dot 1 false))))))))
 (Cat (Opt cr) (Lit nl)))).

(* a\.value = (.+ \+ t\.length).+ *)
Definition jsReplace1RE : Regexp :=
  Cat (Lit "a.value = ")
 (Cat (Group (Cat (Rep dot 1 true) (Lit " + t.length")))
      (Rep dot 1 true)).

(* \s{3,}[a-z](?: = |\.).+ *)
Definition jsReplace2RE : Regexp :=
  Cat (Rep space 3 true)
 (Cat (Class lower)
 (Cat (Alt (Lit " = ") (Lit "."))
      (Rep dot 1 true))).

(* [\n\\'] *)
Definition strip_class (c : ascii) : bool :=
  byte_is 10 c || byte_is 92 c || byte_is 39 c.
Definition jsReplace3RE : Regexp := Class strip_class.

(** ** extractJS *)

Definition errNotFound : error :=
  errorString "Unable to identify Cloudflare IUAM Javascript on the page".

Definition extractJS (body domain : string) : result string :=
  let matches := FindStringSubmatch jsRE body in
  match matches with
  | [] => Err errNotFound
  | _ =>
      let js := nth 1 matches "" in
      let js := ReplaceAllString jsReplace1RE js [Dollar1] in
      let js := ReplaceAllString jsReplace2RE js [] in
      let js := strings.Replace js "t.length" (strconv.Itoa (String.length domain)) (-1) in
      let js := ReplaceAllString jsReplace3RE js [] in
      Ok js
  end.

(** ** Package fmt: the verb [%.10f]

    [Sprintf "%.10f" x] prints the decimal expansion of [x] rounded to ten
    fractional digits, to nearest and to even on a tie, computed on the exact
    value [m * 2^e] of the float. *)

Module fmt.

Definition digit (d : Z) : ascii := ascii_of_nat (48 + Z.to_nat d).

(** The [n] low decimal digits of [x], padded with zeros on the left. *)
Fixpoint digits (n : nat) (x : Z) : string :=
  match n with
  | O => ""
  | S n' => digits n' (x / 10) +:+ String (digit (x mod 10)) ""
  end.

Definition natural (x : Z) : string := NilZero.string_of_uint (N.to_uint (Z.to_N x)).

Definition round_half_even (num den : Z) : Z :=
  let q := (num / den)%Z in
  match (2 * (num mod den) ?= den)%Z with
  | Lt => q
  | Gt => (q + 1)%Z
  | Eq => if Z.even q then q else (q + 1)%Z
  end.

(** [|m * 2^e| * 10^prec], rounded to an integer. *)
Definition scaled (prec : nat) (m : positive) (e : Z) : Z :=
  if (0 <=? e)%Z
  then (Z.pos m * 2 ^ e * 10 ^ Z.of_nat prec)%Z
  else round_half_even (Z.pos m * 10 ^ Z.of_nat prec) (2 ^ (- e)).

Definition sign (s : bool) : string := if s then "-" else "".

Definition fixed (prec : nat) (x : float) : string :=
  match Prim2SF x with
  | S754_nan => "NaN"
  | S754_infinity false => "+Inf"
  | S754_infinity true => "-Inf"
  | S754_zero s => sign s +:+ "0" +:+ "." +:+ digits prec 0
  | S754_finite s m e =>
      let n := scaled prec m e in
      sign s +:+ natural (n / 10 ^ Z.of_nat prec) +:+ "." +:+
      digits prec (n mod 10 ^ Z.of_nat prec)
  end.

Definition Sprintf_10f (x : float) : string := fixed 10 x.

Definition is_finite (x : float) : bool :=
  match Prim2SF x with
  | S754_zero _ | S754_finite _ _ _ => true
  | _ => false
  end.

Definition is_digit (c : ascii) : bool := byte_in 48 57 c.

End fmt.

(** ** Package net/url *)

Module url.

Record URL : Type := mkURL {
  Scheme : string;
  Opaque : string;
  User : option string;     (* the encoded user information, when present *)
  Host : string;
  Path : string;
  RawPath : string;
  ForceQuery : bool;
  RawQuery : string;
  Fragment : string
}.

Definition with_RawQuery (q : string) (u : URL) : URL :=
  mkURL (Scheme u) (Opaque u) (User u) (Host u) (Path u) (RawPath u)
        (ForceQuery u) q (Fragment u).

Definition with_Host (h : string) (u : URL) : URL :=
  mkURL (Scheme u) (Opaque u) (User u) h (Path u) (RawPath u)
        (ForceQuery u) (RawQuery u) (Fragment u).

(** [strings.Split s "/"]. *)
Fixpoint split_slash (cur s : string) : list string :=
  match s with
  | EmptyString => [cur]
  | String c t =>
      if byte_is 47 c then cur :: split_slash "" t
      else split_slash (cur +:+ String c "") t
  end.

Definition join_slash (l : list string) : string :=
  match l with
  | [] => ""
  | a :: tl => fold_left (fun acc e => acc +:+ "/" +:+ e) tl a
  end.

Fixpoint trim_left_slash (s : string) : string :=
  match s with
  | String c t => if byte_is 47 c then trim_left_slash t else s
  | EmptyString => ""
  end.

Fixpoint last_slash (s : string) : option nat :=   (* strings.LastIndex s "/" *)
  match s with
  | EmptyString => None
  | String c t =>
      match last_slash t with
      | Some i => Some (S i)
      | None => if byte_is 47 c then Some 0%nat else None
      end
  end.

Definition resolvePath (base ref : string) : string :=
  let full :=
    match ref with
    | EmptyString => base
    | String c _ =>
        if byte_is 47 c then ref
        else match last_slash base with
             | Some i => substring 0 (S i) base +:+ ref
             | None => ref
             end
    end in
  match full with
  | EmptyString => ""
  | _ =>
      let src := split_slash "" full in
      let dst :=
        fold_left
          (fun dst elem =>
             if String.eqb elem "." then dst
             else if String.eqb elem ".." then removelast dst
             else (dst ++ [elem])%list)
          src [] in
      let last := List.last src "" in
      let dst := if String.eqb last "." || String.eqb last ".." then (dst ++ [""])%list else dst in
      "/" +:+ trim_left_slash (join_slash dst)
  end.

(** [EscapedPath] of a URL whose path needs no escaping. *)
Definition EscapedPath (u : URL) : string :=
  match RawPath u with
  | EmptyString => Path u
  | raw => raw
  end.

(** [u.ResolveReference(ref)] for a reference without scheme, host, user
    and opaque part, whose path needs no escaping: the only kind the
    program resolves. *)
Definition ResolveReference (u ref : URL) : URL :=
  match Path ref, ForceQuery ref, RawQuery ref with
  | EmptyString, false, EmptyString =>
      mkURL (Scheme u) (Opaque ref) (User u) (Host u)
            (resolvePath (EscapedPath u) (EscapedPath ref)) ""
            (ForceQuery ref) (RawQuery u)
            (match Fragment ref with EmptyString => Fragment u | f => f end)
  | _, _, _ =>
      mkURL (Scheme u) (Opaque ref) (User u) (Host u)
            (resolvePath (EscapedPath u) (EscapedPath ref)) ""
            (ForceQuery ref) (RawQuery ref) (Fragment ref)
  end.

(** [QueryEscape]. *)
Definition unreserved (c : ascii) : bool :=
  byte_in 48 57 c || byte_in 65 90 c || byte_in 97 122 c ||
  byte_is 45 c || byte_is 95 c || byte_is 46 c || byte_is 126 c.

Definition hex (n : nat) : ascii :=
  if (n <? 10)%nat then ascii_of_nat (48 + n) else ascii_of_nat (55 + n).

Fixpoint QueryEscape (s : string) : string :=
  match s with
  | EmptyString => ""
  | String c t =>
      if unreserved c then String c (QueryEscape t)
      else if byte_is 32 c then String "+"%char (QueryEscape t)
      else String "%"%char
             (String (hex (nat_of_ascii c / 16))
                (String (hex (nat_of_ascii c mod 16)) (QueryEscape t)))
  end.

(** [Values.Encode]: the keys in byte order, each value as [key=value],
    joined by [&]. *)
Definition key_le (a b : string) : Prop := Is_true (String.leb a b).

Definition sorted_keys (v : gmap string (list string)) : list string :=
  merge_sort key_le (map fst (map_to_list v)).

Definition pairs (v : gmap string (list string)) : list string :=
  flat_map
    (fun k => map (fun x => QueryEscape k +:+ "=" +:+ QueryEscape x)
                  (default [] (v !! k)))
    (sorted_keys v).

Definition join_amp (l : list string) : string :=
  match l with
  | [] => ""
  | a :: tl => fold_left (fun acc e => acc +:+ "&" +:+ e) tl a
  end.

Definition Encode (v : gmap string (list string)) : string := join_amp (pairs v).

End url.

(** ** Package net/http *)

Module http.

(** [textproto.CanonicalMIMEHeaderKey]: a key made of token bytes only has
    its first letter and every letter after a hyphen in upper case and the
    others in lower case; any other key is left as it is. *)
Definition validHeaderFieldByte (c : ascii) : bool :=
  byte_in 48 57 c || byte_in 65 90 c || byte_in 97 122 c ||
  byte_is 33 c || byte_in 35 39 c || byte_is 42 c || byte_is 43 c ||
  byte_is 45 c || byte_is 46 c || byte_is 94 c || byte_is 95 c ||
  byte_is 96 c || byte_is 124 c || byte_is 126 c.

Definition recase_byte (upper : bool) (c : ascii) : ascii :=
  if upper && byte_in 97 122 c then ascii_of_nat (nat_of_ascii c - 32)
  else if negb upper && byte_in 65 90 c then ascii_of_nat (nat_of_ascii c + 32)
  else c.

Fixpoint recase (upper : bool) (s : string) : string :=
  match s with
  | EmptyString => ""
  | String c t =>
      let c' := recase_byte upper c in
      String c' (recase (byte_is 45 c') t)
  end.

Definition CanonicalMIMEHeaderKey (s : string) : string :=
  if string_forall validHeaderFieldByte s then recase true s else s.

Definition Values (h : gmap string (list string)) (key : string) : list string :=
  default [] (h !! CanonicalMIMEHeaderKey key).

Definition Get (h : gmap string (list string)) (key : string) : string :=
  hd "" (Values h key).

Definition Set_ (h : gmap string (list string)) (key value : string)
    : gmap string (list string) :=
  <[CanonicalMIMEHeaderKey key := [value]]> h.

Definition Add (h : gmap string (list string)) (key value : string)
    : gmap string (list string) :=
  <[CanonicalMIMEHeaderKey key := (Values h key ++ [value])%list]> h.

Record Cookie : Type := mkCookie { Name : string; Value : string }.

Record Request : Type := mkRequest {
  Method : string;
  URL : url.URL;
  Header : gmap string (list string);
  Body : option string;       (* [None] is the nil body *)
  Host : string
}.

Definition with_Header (h : gmap string (list string)) (r : Request) : Request :=
  mkRequest (Method r) (URL r) h (Body r) (Host r).

(** A response.  [RespBody] is what reading its body to the end yields and
    [ReadErr] the error of that read, if any; [Sent] is its [Request]
    field, the request that obtained it, where the package reads the
    original request.  The package dereferences that field, its URL and the
    header map of the caller's request without a check: here none of them
    is nil. *)
Record Response : Type := mkResponse {
  StatusCode : Z;
  RespHeader : gmap string (list string);
  RespBody : string;
  ReadErr : option error;
  Sent : Request
}.

(** [removeEmptyPort]: a host ending in a colon loses it. *)
Fixpoint removeEmptyPort (host : string) : string :=
  match host with
  | EmptyString => ""
  | String c EmptyString => if byte_is 58 c then "" else host
  | String c t => String c (removeEmptyPort t)
  end.

End http.

(** ** Panics, blocking, and the collaborators of the package *)

Inductive panic_value : Type :=
| panicError (e : error)
| panicOther (msg : string).

(** How a call ends: it returns, it blocks for ever, or a panic that nothing
    recovers ends the process. *)
Inductive Outcome (A : Type) : Type :=
| Returns (a : A)
| Blocks
| Crashes (p : panic_value).
Arguments Returns {A} a.
Arguments Blocks {A}.
Arguments Crashes {A} p.

(** The upstream [http.RoundTripper]: a transport with a state of its own. *)
Class RoundTripper (W : Type) : Type :=
  upstream_RoundTrip : http.Request -> W -> result http.Response * W.

(** The [http.CookieJar]. *)
Class CookieJar (J : Type) : Type := {
  jar_Cookies : J -> url.URL -> list http.Cookie;
  jar_SetCookies : J -> url.URL -> list http.Cookie -> J
}.

(** What the library functions the package calls do, as far as the package
    does not fix it: parsing and printing a URL, reading the cookies of a
    response header, sanitising a cookie for the [Cookie] header. *)
Class NetHTTP : Type := {
  url_Parse : string -> result url.URL;
  URL_String : url.URL -> string;
  readSetCookies : gmap string (list string) -> list http.Cookie;
  sanitizeCookieName : string -> string;
  sanitizeCookieValue : string -> string
}.

(** How [vm.Run] ends in the goroutine of [executeUnsafeJS]: it returns a
    value or an error, or it panics. *)
Inductive Run (V : Type) : Type :=
| run_returns (r : result V)
| run_panics (p : panic_value).
Arguments run_returns {V} r.
Arguments run_panics {V} p.

(** The race [evaluateJS] waits on, between the goroutine running the script
    and the five-second timer:
    - [ret_first run]: [vm.Run] ends as [run] says and the goroutine's send
      on [ret] is received before the timer fires;
    - [timer_first received]: the timer fires first, and [evaluateJS] sends
      its function on [interrupt]; [received] tells whether the engine, still
      running, receives from its [Interrupt] channel, which it then does by
      calling the function it got. *)
Inductive Race (V : Type) : Type :=
| ret_first (run : Run V)
| timer_first (received : bool).
Arguments ret_first {V} run.
Arguments timer_first {V} received.

(** The script engine and its scheduling against the timer. *)
Class Otto : Type := {
  otto_Value : Type;
  sandbox : string -> Race otto_Value;
  ToFloat : otto_Value -> float * option error
}.

(** ** The package *)

Definition UserAgent : string :=
  "Mozilla/5.0 (Windows NT 10.0; WOW64) AppleWebKit/537.36 (KHTML, like Gecko) Chrome/65.0.3325.181 Safari/537.36".

Definition errHalt : error := errorString "Stop".
Definition errTooLong : error := errorString "The unsafe Javascript ran for too long".

Definition error_eqb (a b : error) : bool :=
  match a, b with
  | errorString x, errorString y => String.eqb x y
  | foreignError x, foreignError y => String.eqb x y
  | _, _ => false
  end.

Definition is_errHalt (p : panic_value) : bool :=
  match p with
  | panicError e => error_eqb e errHalt
  | panicOther _ => false
  end.

Record ottoReturn : Type := mkOttoReturn { Result : float; Err_ : option error }.

(** The function [evaluateJS] sends on [interrupt]: [panic(errHalt)]. *)
Definition interrupt_func : panic_value := panicError errHalt.

(** The deferred function of [executeUnsafeJS], run with the panic [caught]
    and the current value of [num]: the halt becomes the timeout error sent
    on [ret], any other panic goes on. *)
Definition recovered (num : float) (caught : panic_value) : Outcome ottoReturn :=
  if is_errHalt caught
  then Returns (mkOttoReturn num (Some errTooLong))
  else Crashes caught.

Definition chkURL : url.URL :=
  url.mkURL "" "" None "" "/cdn-cgi/l/chk_jschl" "" false "" "".

(** The three query parameters, from the page [b] and the formatted answer. *)
Definition answerParams (b answer : string) : gmap string (list string) :=
  let params : gmap string (list string) := ∅ in
  let params :=
    match FindStringSubmatch jschlRE b with
    | [] => params
    | m => <["jschl_vc" := [nth 1 m ""]]> params
    end in
  let params :=
    match FindStringSubmatch passRE b with
    | [] => params
    | m => <["pass" := [nth 1 m ""]]> params
    end in
  <["jschl_answer" := [answer]]> params.

(** The URL the answer is sent to. *)
Definition answerURL (resp : http.Response) (answer : string) : url.URL :=
  let u := url.ResolveReference (http.URL (http.Sent resp)) chkURL in
  url.with_RawQuery (url.Encode (answerParams (http.RespBody resp) answer)) u.

(** The loop copying the header of the original request. *)
Definition copyHeader (src dst : gmap string (list string)) : gmap string (list string) :=
  map_fold (fun key vals h => foldl (fun h val => http.Add h key val) h vals) dst src.

(** Events of one call, in the order they happen. *)
Inductive Event : Type :=
| RoundTripped (r : http.Request)     (* a call of the upstream transport *)
| Slept (seconds : nat).

Definition is_round_trip (e : Event) : bool :=
  match e with
  | RoundTripped _ => true
  | Slept _ => false
  end.

Definition round_trips (t : list Event) : nat := length (List.filter is_round_trip t).

Definition is_challenge (resp : http.Response) : bool :=
  (http.StatusCode resp =? 503)%Z &&
  strings.HasPrefix (http.Get (http.RespHeader resp) "Server") "cloudflare".

(** ** Notions the properties are stated with *)

(** One field of a query: the text up to the next [&]. *)
Definition query_fields (q : string) : list string :=
  (fix go (cur s : string) : list string :=
     match s with
     | EmptyString => [cur]
     | String c t =>
         if byte_is 38 c then cur :: go "" t else go (cur +:+ String c "") t
     end) "" q.

(** The query [q] has the parameter [k] with an empty value. *)
Definition empty_param (k q : string) : bool :=
  existsb (fun f => String.eqb f (k +:+ "=") || String.eqb f k) (query_fields q).

(** A script outlives the deadline when the timer fires before its run
    ends. *)
Definition exceeds_deadline {V : Type} (b : Race V) : bool :=
  match b with
  | timer_first _ => true
  | ret_first _ => false
  end.

(** The values a header map holds under the key [c], taken as it is. *)
Definition at_key (h : gmap string (list string)) (c : string) : list string :=
  default [] (h !! c).

(** The shape of a number printed with ten fractional digits: an optional
    minus sign, at least one digit, a point, ten digits. *)
Definition ten_fraction_digits (s : string) : Prop :=
  ∃ sgn int frac : string,
    s = sgn +:+ int +:+ "." +:+ frac ∧
    (sgn = "" ∨ sgn = "-") ∧
    int ≠ "" ∧ string_forall fmt.is_digit int = true ∧
    String.length frac = 10%nat ∧ string_forall fmt.is_digit frac = true.

Section Package.

Context {W J : Type} `{!RoundTripper W} `{!CookieJar J} `{!NetHTTP} `{!Otto}.

(** [http.NewRequest method urlStr nil]. *)
Definition NewRequest (method urlStr : string) : result http.Request :=
  match url_Parse urlStr with
  | Err e => Err e
  | Ok u =>
      let u := url.with_Host (http.removeEmptyPort (url.Host u)) u in
      Ok (http.mkRequest method u ∅ None (url.Host u))
  end.

(** [r.AddCookie(c)]. *)
Definition AddCookie (r : http.Request) (c : http.Cookie) : http.Request :=
  let s := sanitizeCookieName (http.Name c) +:+ "=" +:+ sanitizeCookieValue (http.Value c) in
  match http.Get (http.Header r) "Cookie" with
  | EmptyString => http.with_Header (http.Set_ (http.Header r) "Cookie" s) r
  | c => http.with_Header (http.Set_ (http.Header r) "Cookie" (c +:+ "; " +:+ s)) r
  end.

(** [executeUnsafeJS], given how [vm.Run] ends: what the goroutine sends on
    [ret], unless a panic other than the halt ends the process. *)
Definition executeUnsafeJS (run : Run otto_Value) : Outcome ottoReturn :=
  let num := 0%float in
  match run with
  | run_panics caught => recovered num caught
  | run_returns (Ok result) =>
      let '(num, err) := ToFloat result in
      Returns (mkOttoReturn num err)
  | run_returns (Err err) => Returns (mkOttoReturn num (Some err))
  end.

(** [evaluateJS]: the select loop.  When the timer fires first, the loop
    sends [interrupt_func] and, once the engine has received and called it,
    comes round to receive from [ret]; the send blocks for ever when the
    engine does not receive. *)
Definition evaluateJS (js : string) : Outcome (float * option error) :=
  let sent :=
    match sandbox js with
    | ret_first run => executeUnsafeJS run
    | timer_first true => executeUnsafeJS (run_panics interrupt_func)
    | timer_first false => Blocks
    end in
  match sent with
  | Returns r => Returns (Result r, Err_ r)
  | Blocks => Blocks
  | Crashes p => Crashes p
  end.

Definition buildAnswerRequest (resp : http.Response) : Outcome (result http.Request) :=
  match http.ReadErr resp with
  | Some err => Returns (Err err)
  | None =>
      let b := http.RespBody resp in
      match extractJS b (url.Host (http.URL (http.Sent resp))) with
      | Err err => Returns (Err err)
      | Ok js =>
          match evaluateJS js with
          | Blocks => Blocks
          | Crashes p => Crashes p
          | Returns (num, err) =>
              let answer := fmt.Sprintf_10f num in
              match err with
              | Some err => Returns (Err err)
              | None =>
                  let u := answerURL resp answer in
                  match NewRequest "GET" (URL_String u) with
                  | Err err => Returns (Err err)
                  | Ok req =>
                      let h := copyHeader (http.Header (http.Sent resp)) (http.Header req) in
                      let h := http.Set_ h "Referer" (URL_String (http.URL (http.Sent resp))) in
                      Returns (Ok (http.with_Header h req))
                  end
              end
          end
      end
  end.

(** The state a call of [RoundTrip] runs in. *)
Record World : Type := mkWorld {
  wire : W;                 (* the state of the upstream transport *)
  cookies : J;              (* the cookie jar of the round tripper *)
  trace : list Event
}.

Definition M (A : Type) : Type := World -> Outcome A * World.

Definition ret {A : Type} (a : A) : M A := fun w => (Returns a, w).

Definition bind {A B : Type} (m : M A) (k : A -> M B) : M B :=
  fun w =>
    match m w with
    | (Returns a, w') => k a w'
    | (Blocks, w') => (Blocks, w')
    | (Crashes p, w') => (Crashes p, w')
    end.

Definition lift {A : Type} (o : Outcome A) : M A := fun w => (o, w).

Definition upstream (r : http.Request) : M (result http.Response) :=
  fun w =>
    let '(res, wire') := upstream_RoundTrip r (wire w) in
    (Returns res, mkWorld wire' (cookies w) (trace w ++ [RoundTripped r])%list).

Definition Sleep (seconds : nat) : M unit :=
  fun w => (Returns tt, mkWorld (wire w) (cookies w) (trace w ++ [Slept seconds])%list).

Definition Cookies (u : url.URL) : M (list http.Cookie) :=
  fun w => (Returns (jar_Cookies (cookies w) u), w).

Definition SetCookies (u : url.URL) (cs : list http.Cookie) : M unit :=
  fun w => (Returns tt, mkWorld (wire w) (jar_SetCookies (cookies w) u cs) (trace w)).

Notation "'do' x <- m ; k" := (bind m (fun x => k))
  (at level 10, x name, m at level 100, k at level 200).

(** The request as [RoundTrip] sends it: the caller's, with the default
    user agent when it has none, and the cookies of the jar. *)
Definition outgoing (r : http.Request) (cs : list http.Cookie) : http.Request :=
  let r :=
    match http.Get (http.Header r) "User-Agent" with
    | EmptyString => http.with_Header (http.Set_ (http.Header r) "User-Agent" UserAgent) r
    | _ => r
    end in
  foldl AddCookie r cs.

Definition RoundTrip (r : http.Request) : M (result http.Response) :=
  do cs <- Cookies (http.URL r);
  let r := outgoing r cs in
  do res <- upstream r;
  match res with
  | Err err => ret (Err err)
  | Ok resp =>
      if is_challenge resp then
        do built <- lift (buildAnswerRequest resp);
        match built with
        | Err err => ret (Err err)
        | Ok req =>
            do slept <- Sleep 5;
            do res <- upstream req;
            match res with
            | Err err => ret (Err err)
            | Ok resp =>
                let cs := readSetCookies (http.RespHeader resp) in
                do saved <- (match cs with
                      | [] => ret tt
                      | _ => SetCookies (http.URL (http.Sent resp)) cs
                      end);
                ret (Ok resp)
            end
        end
      else ret (Ok resp)
  end.

(** The request that reaches the transport first. *)
Definition first_request (r : http.Request) (w : World) : http.Request :=
  outgoing r (jar_Cookies (cookies w) (http.URL r)).

(** The request [buildAnswerRequest] returns for the page of [resp] when the
    text of its target URL parses as [parsed]. *)
Definition built (resp : http.Response) (parsed : url.URL) : http.Request :=
  let u := url.with_Host (http.removeEmptyPort (url.Host parsed)) parsed in
  http.mkRequest "GET" u
    (http.Set_ (copyHeader (http.Header (http.Sent resp)) ∅) "Referer"
       (URL_String (http.URL (http.Sent resp))))
    None (url.Host u).

(** The reading of C7 that fails: the answer request is built and its query
    has the parameter [jschl_vc] with an empty value. *)
Definition carries_empty_vc (resp : http.Response) : Prop :=
  ∃ req, buildAnswerRequest resp = Returns (Ok req) ∧
         empty_param "jschl_vc" (url.RawQuery (http.URL req)) = true.

(** The reading of C5 that fails: [evaluateJS] returns the timeout error for
    every script whose run outlives the deadline. *)
Definition reports_timeout (js : string) : Prop :=
  exceeds_deadline (sandbox js) = true →
  ∃ num, evaluateJS js = Returns (num, Some errTooLong).

End Package.

(** The stages of [extractJS] on a script block [js]. *)
Definition stage1 (js : string) : string := ReplaceAllString jsReplace1RE js [Dollar1].
Definition stage2 (js : string) : string := ReplaceAllString jsReplace2RE js [].
Definition stage3 (domain js : string) : string :=
  strings.Replace js "t.length" (strconv.Itoa (String.length domain)) (-1).
Definition stage4 (js : string) : string := ReplaceAllString jsReplace3RE js [].

Definition ends_with (suf s : string) : bool :=
  String.eqb (substring (String.length s - String.length suf) (String.length suf) s) suf.

Definition clean (c : ascii) : bool := negb (strip_class c).

(** ** Fixtures: a challenge page and scripted collaborators *)

Definition lines (l : list string) : string :=
  fold_right (fun a b => a +:+ nl +:+ b) "" l.

Definition fixture_body : string := lines [
  "<html><body>";
  "  <script type=" +:+ dq +:+ "text/javascript" +:+ dq +:+ ">";
  "  //<![CDATA[";
  "  (function(){";
  "    var a = function() {try{return !!window.addEventListener} catch(e) {return !1} },";
  "    b = function(b, c) {a() ? document.addEventListener(" +:+ dq +:+ "DOMContentLoaded" +:+ dq +:+ ", b, c) : document.attachEvent(" +:+ dq +:+ "onreadystatechange" +:+ dq +:+ ", b)};";
  "    b(function(){";
  "      var a = document.getElementById('cf-content');a.style.display = 'block';";
  "      setTimeout(function(){";
  "        var s,t,o,p,b,r,e,a,k,i,n,g,f, xYzAbcd={" +:+ dq +:+ "kLm" +:+ dq +:+ ":+((!+[]+!![]+!![]+[])+(+!![]))};";
  "        t = document.createElement('div');";
  "        t.innerHTML=" +:+ dq +:+ "<a href='/'>x</a>" +:+ dq +:+ ";";
  "        t = t.firstChild.href;r = t.match(/https?:\/\//)[0];";
  "        t = t.substr(r.length); t = t.substr(0,t.length-1);";
  "        a = document.getElementById('jschl-answer');";
  "        f = document.getElementById('challenge-form');";
  "        ;xYzAbcd.kLm+=+((!+[]+!![]+[])+(+[]));xYzAbcd.kLm*=+((+!![]+[])+(!+[]+!![]));a.value = parseInt(xYzAbcd.kLm, 10) + t.length; '; 121'";
  "        f.submit();";
  "      }, 4000);";
  "    }, false);";
  "  })();";
  "  //]]>";
  "</script>";
  "<form id=" +:+ dq +:+ "challenge-form" +:+ dq +:+ " action=" +:+ dq +:+ "/cdn-cgi/l/chk_jschl" +:+ dq +:+ " method=" +:+ dq +:+ "get" +:+ dq +:+ ">";
  "  <input type=" +:+ dq +:+ "hidden" +:+ dq +:+ " name=" +:+ dq +:+ "jschl_vc" +:+ dq +:+ " value=" +:+ dq +:+ "f3b2a8c4e1d09a7b6c5d4e3f2a1b0c9d" +:+ dq +:+ "/>";
  "  <input type=" +:+ dq +:+ "hidden" +:+ dq +:+ " name=" +:+ dq +:+ "pass" +:+ dq +:+ " value=" +:+ dq +:+ "1530000000.123-AbCdEfGhIj" +:+ dq +:+ "/>";
  "  <input type=" +:+ dq +:+ "hidden" +:+ dq +:+ " id=" +:+ dq +:+ "jschl-answer" +:+ dq +:+ " name=" +:+ dq +:+ "jschl_answer" +:+ dq +:+ "/>";
  "</form>";
  "</body></html>"
].

(** The page without its [jschl_vc] field, and a page without the script. *)
Definition fixture_body_no_vc : string :=
  strings.Replace fixture_body ("name=" +:+ dq +:+ "jschl_vc" +:+ dq)
                  ("name=" +:+ dq +:+ "other" +:+ dq) (-1).

Definition plain_body : string := "<html><body>Service Temporarily Unavailable</body></html>".

Definition fixture_script : string :=
  "var s,t,o,p,b,r,e,a,k,i,n,g,f, xYzAbcd={" +:+ dq +:+ "kLm" +:+ dq +:+
  ":+((!+[]+!![]+!![]+[])+(+!![]))};        ;xYzAbcd.kLm+=+((!+[]+!![]+[])+(+[]));xYzAbcd.kLm*=+((+!![]+[])+(!+[]+!![]));parseInt(xYzAbcd.kLm, 10) + 11".

(** The script block of the fixture page after the first two stages, up to
    its one remaining [t.length]. *)
Definition fixture_kept : string :=
  "var s,t,o,p,b,r,e,a,k,i,n,g,f, xYzAbcd={" +:+ dq +:+ "kLm" +:+ dq +:+
  ":+((!+[]+!![]+!![]+[])+(+!![]))};" +:+ nl +:+
  "        ;xYzAbcd.kLm+=+((!+[]+!![]+[])+(+[]));xYzAbcd.kLm*=+((+!![]+[])+(!+[]+!![]));parseInt(xYzAbcd.kLm, 10) + ".

(** A challenge page whose script holds the statement [stmt]. *)
Definition page_with (stmt : string) : string := lines [
  "<script>";
  "setTimeout(function(){";
  "var s,t,o,p,b,r,e,a,k,i,n,g,f, x=0;";
  stmt +:+ "a.value = x + t.length; ";
  "}, 4000);";
  "</script>"
].

(** A transport that answers from a script of handlers, one per call. *)
Definition Scripted : Type := list (http.Request -> result http.Response).

#[local] Instance scripted_transport : RoundTripper Scripted :=
  fun r w =>
    match w with
    | [] => (Err (foreignError "EOF"), [])
    | h :: tl => (h r, tl)
    end.

(** A jar keeping the cookies last set for each host. *)
#[local] Instance host_jar : CookieJar (gmap string (list http.Cookie)) := {
  jar_Cookies j u := default [] (j !! url.Host u);
  jar_SetCookies j u cs := <[url.Host u := cs]> j
}.

(** [split_on c s]: [s] up to the first byte [c], and what follows it. *)
Fixpoint split_on (c : nat) (s : string) : string * option string :=
  match s with
  | EmptyString => ("", None)
  | String a t =>
      if byte_is c a then ("", Some t)
      else let '(l, r) := split_on c t in (String a l, r)
  end.

(** URLs of the shape [scheme://host/path?query]. *)
Definition simple_String (u : url.URL) : string :=
  url.Scheme u +:+ "://" +:+ url.Host u +:+ url.Path u +:+
  match url.RawQuery u with
  | EmptyString => ""
  | q => "?" +:+ q
  end.

Definition simple_Parse (s : string) : result url.URL :=
  match split_on 58 s with
  | (scheme, Some (String a (String b t))) =>
      if byte_is 47 a && byte_is 47 b then
        let '(hostpath, query) := split_on 63 t in
        let '(host, path) := split_on 47 hostpath in
        Ok (url.mkURL scheme "" None host
              (match path with Some p => "/" +:+ p | None => "" end)
              "" false (default "" query) "")
      else Err (foreignError "parse: missing //")
  | _ => Err (foreignError "parse: missing scheme")
  end.

Definition simple_cookie (line : string) : http.Cookie :=
  let '(name, value) := split_on 61 line in http.mkCookie name (default "" value).

#[local] Instance simple_http : NetHTTP := {
  url_Parse := simple_Parse;
  URL_String := simple_String;
  readSetCookies h := map simple_cookie (http.Values h "Set-Cookie");
  sanitizeCookieName s := s;
  sanitizeCookieValue s := s
}.

(** An engine whose values are numbers: it knows the script of the fixture
    page, is interrupted on scripts that hold a [for(;;)] loop and never
    yields on scripts that hold [spin()] instead. *)
Definition scripted_sandbox (js : string) : Race float :=
  if String.eqb js fixture_script then ret_first (run_returns (Ok 12345.6%float))
  else if contains "for(;;)" js then timer_first true
  else if contains "spin()" js then timer_first false
  else if contains "0/0" js then ret_first (run_returns (Ok nan))
  else ret_first (run_returns (Err (foreignError "SyntaxError"))).

#[local] Instance scripted_engine : Otto := {
  otto_Value := float;
  sandbox := scripted_sandbox;
  ToFloat v := (v, None)
}.

Definition example_URL : url.URL :=
  url.mkURL "http" "" None "example.com" "/path" "" false "" "".

Definition example_request (method : string) : http.Request :=
  http.mkRequest method example_URL
    (<["Accept" := ["text/html"; "*/*"]]> (<["X-Trace" := ["1"]]> ∅))
    None "example.com".

Definition challenge_with (body : string) (r : http.Request) : result http.Response :=
  Ok (http.mkResponse 503 (<["Server" := ["cloudflare-nginx"]]> ∅) body None r).

Definition cleared (r : http.Request) : result http.Response :=
  Ok (http.mkResponse 200
        (<["Set-Cookie" := ["cf_clearance=0123abcd"]]> (<["Server" := ["cloudflare-nginx"]]> ∅))
        "<html>welcome</html>" None r).

Definition not_found (r : http.Request) : result http.Response :=
  Ok (http.mkResponse 404 (<["Server" := ["cloudflare-nginx"]]> ∅) "gone" None r).

Definition origin_503 (r : http.Request) : result http.Response :=
  Ok (http.mkResponse 503 (<["Server" := ["nginx"]]> ∅) "busy" None r).

Definition start (w : Scripted) : World :=
  mkWorld w (∅ : gmap string (list http.Cookie)) [].

(** The challenge response the scripted transport gives to the example
    request with [method], for the page [body]. *)
Definition challenged (method body : string) : http.Response :=
  http.mkResponse 503 (<["Server" := ["cloudflare-nginx"]]> ∅) body None
    (first_request (example_request method) (start [])).

Definition fixture_target : url.URL :=
  url.mkURL "http" "" None "example.com" "/cdn-cgi/l/chk_jschl" "" false
    "jschl_answer=12345.6000000000&jschl_vc=f3b2a8c4e1d09a7b6c5d4e3f2a1b0c9d&pass=1530000000.123-AbCdEfGhIj"
    "".

Definition fixture_target_no_vc : url.URL :=
  url.mkURL "http" "" None "example.com" "/cdn-cgi/l/chk_jschl" "" false
    "jschl_answer=12345.6000000000&pass=1530000000.123-AbCdEfGhIj"
    "".

Definition spin_script : string := "var s,t,o,p,b,r,e,a,k,i,n,g,f, x=0;spin();x + 11".
Definition loop_script : string := "var s,t,o,p,b,r,e,a,k,i,n,g,f, x=0;for(;;){x++};x + 11".

(** ** Notions for the further properties *)

(** What a match of an expression is: [sem r w g g'] says that [r] matches
    the text [w], taking the text of group 1 from [g] to [g']. *)
Fixpoint sem (r : Regexp) (w : string) (g g' : option string) : Prop :=
  match r with
  | Lit s => w = s ∧ g' = g
  | Class p => (∃ c, w = String c "" ∧ p c = true) ∧ g' = g
  | Rep p min _ => string_forall p w = true ∧ (min ≤ String.length w)%nat ∧ g' = g
  | Opt p => (w = "" ∨ ∃ c, w = String c "" ∧ p c = true) ∧ g' = g
  | Alt r1 r2 => sem r1 w g g' ∨ sem r2 w g g'
  | Cat r1 r2 => ∃ w1 w2 gm, w = w1 +:+ w2 ∧ sem r1 w1 g gm ∧ sem r2 w2 gm g'
  | Group r1 => (∃ gi, sem r1 w g gi) ∧ g' = Some w
  end.

(** The text before the value of a hidden field. *)
Definition field_open (name : string) : string :=
  "name=" +:+ dq +:+ name +:+ dq +:+ " value=" +:+ dq.


(** [s] without its first [n] bytes. *)
Fixpoint string_drop (n : nat) (s : string) : string :=
  match n, s with
  | O, _ => s
  | S k, String _ t => string_drop k t
  | S _, EmptyString => ""
  end.


(** The texts of [l] joined by a semicolon and a space. *)
Definition join_semi (l : list string) : string :=
  match l with
  | [] => ""
  | a :: tl => fold_left (fun acc e => acc +:+ "; " +:+ e) tl a
  end.

(** The list holding [s], unless [s] is empty. *)
Definition nonempty_list (s : string) : list string :=
  match s with
  | EmptyString => []
  | _ => [s]
  end.

(** A cookie as [AddCookie] writes it. *)
Definition cookie_pair `{!NetHTTP} (c : http.Cookie) : string :=
  sanitizeCookieName (http.Name c) +:+ "=" +:+ sanitizeCookieValue (http.Value c).


(** More fixtures: a page whose script the scripted engine rejects, a page
    whose script gives no number, and the targets and scripts they lead
    to. *)
Definition rejected_page : string := page_with "x=1;".
Definition nan_page : string := page_with "x=0/0;".

Definition nan_script : string := "var s,t,o,p,b,r,e,a,k,i,n,g,f, x=0;x=0/0;x + 11".

Definition nan_target : url.URL :=
  url.mkURL "http" "" None "example.com" "/cdn-cgi/l/chk_jschl" "" false
    "jschl_answer=NaN" "".

Definition fixture_first : http.Request :=
  first_request (example_request "GET") (start []).

Definition fixture_answer : http.Request :=
  built (challenged "GET" fixture_body) fixture_target.

(** * The library models on small inputs *)

Example regexp_lazy_group :
  FindStringSubmatch passRE
    ("<input name=" +:+ dq +:+ "pass" +:+ dq +:+ " value=" +:+ dq +:+ "a-1" +:+ dq +:+
     " id=" +:+ dq +:+ "x" +:+ dq +:+ ">")
  = ["name=" +:+ dq +:+ "pass" +:+ dq +:+ " value=" +:+ dq +:+ "a-1" +:+ dq; "a-1"].
Proof. vm_compute. reflexivity. Qed.

Example regexp_word_group_stops :
  FindStringSubmatch jschlRE
    ("name=" +:+ dq +:+ "jschl_vc" +:+ dq +:+ " value=" +:+ dq +:+ "ab cd" +:+ dq) = [].
Proof. vm_compute. reflexivity. Qed.

Example regexp_greedy_group :
  ReplaceAllString jsReplace1RE "a.value = 1 + t.length + t.length; z" [Dollar1]
  = "1 + t.length + t.length".
Proof. vm_compute. reflexivity. Qed.

Example regexp_needs_a_tail :
  ReplaceAllString jsReplace1RE "a.value = 1 + t.length" [Dollar1]
  = "a.value = 1 + t.length".
Proof. vm_compute. reflexivity. Qed.

Example regexp_drops_mutation_lines :
  ReplaceAllString jsReplace2RE
    ("x=1;" +:+ nl +:+ "   t = f();" +:+ nl +:+ " t = g();" +:+ nl +:+ "    k.p();" +:+ nl +:+ "y") []
  = "x=1;" +:+ nl +:+ " t = g();" +:+ nl +:+ "y".
Proof. vm_compute. reflexivity. Qed.

Example strings_Replace_all_and_some :
  strings.Replace "t.length-t.length" "t.length" "11" (-1) = "11-11" ∧
  strings.Replace "t.length-t.length" "t.length" "11" 1 = "11-t.length" ∧
  strings.Replace "aaa" "aa" "b" (-1) = "ba".
Proof. vm_compute. auto. Qed.

Example Sprintf_10f_samples :
  fmt.Sprintf_10f 0.5%float = "0.5000000000" ∧
  fmt.Sprintf_10f (-0)%float = "-0.0000000000" ∧
  fmt.Sprintf_10f (1 / 2048)%float = "0.0004882812" ∧
  fmt.Sprintf_10f (3 / 2048)%float = "0.0014648438" ∧
  fmt.Sprintf_10f (-2.5)%float = "-2.5000000000" ∧
  fmt.Sprintf_10f 1e22%float = "10000000000000000000000.0000000000" ∧
  fmt.Sprintf_10f nan = "NaN" ∧
  fmt.Sprintf_10f infinity = "+Inf" ∧
  fmt.Sprintf_10f neg_infinity = "-Inf".
Proof. vm_compute. auto 10. Qed.

Example CanonicalMIMEHeaderKey_samples :
  http.CanonicalMIMEHeaderKey "user-agent" = "User-Agent" ∧
  http.CanonicalMIMEHeaderKey "REFERER" = "Referer" ∧
  http.CanonicalMIMEHeaderKey "x-FOO-bar" = "X-Foo-Bar" ∧
  http.CanonicalMIMEHeaderKey "not a token" = "not a token".
Proof. vm_compute. auto. Qed.

Example Encode_sorts_and_escapes :
  url.Encode (<["pass" := ["a b&c/d~"]]> (<["jschl_vc" := ["x_1"]]>
             (<["jschl_answer" := ["1.5000000000"]]> ∅)))
  = "jschl_answer=1.5000000000&jschl_vc=x_1&pass=a+b%26c%2Fd~".
Proof. vm_compute. reflexivity. Qed.

Example resolvePath_samples :
  url.resolvePath "/a/b" "/cdn-cgi/l/chk_jschl" = "/cdn-cgi/l/chk_jschl" ∧
  url.resolvePath "/a/b" "../c/./d" = "/c/d" ∧
  url.resolvePath "/a/b/" "c" = "/a/b/c".
Proof. vm_compute. auto. Qed.

(** The whole pipeline on the fixture page: the answer is submitted after
    the sleep, the cleared response is returned and its cookie is kept. *)
Example RoundTrip_solves_fixture :
  let first := first_request (example_request "GET") (start []) in
  let answer := built (challenged "GET" fixture_body) fixture_target in
  RoundTrip (example_request "GET") (start [challenge_with fixture_body; cleared]) =
    (Returns (cleared answer),
     mkWorld [] (<["example.com" := [http.mkCookie "cf_clearance" "0123abcd"]]> ∅)
       [RoundTripped first; Slept 5; RoundTripped answer]) ∧
  http.Get (http.Header
              (first_request (example_request "GET")
                 (mkWorld ([] : Scripted)
                    (<["example.com" := [http.mkCookie "cf_clearance" "0123abcd"]]> ∅) [])))
           "Cookie" = "cf_clearance=0123abcd".
Proof. cbv zeta. split; vm_compute; reflexivity. Qed.

(** * Properties *)

Section Properties.

Context {W J : Type} `{!RoundTripper W} `{!CookieJar J} `{!NetHTTP} `{!Otto}.

Lemma is_challenge_false (resp : http.Response) :
  http.StatusCode resp ≠ 503%Z ∨
  strings.HasPrefix (http.Get (http.RespHeader resp) "Server") "cloudflare" = false →
  is_challenge resp = false.
Proof.
  unfold is_challenge. intros [Hs | Hp].
  - apply Z.eqb_neq in Hs. now rewrite Hs.
  - rewrite Hp. apply andb_false_r.
Qed.

(** C1. When the response of the transport is not a 503, or is a 503 whose
    [Server] header does not begin with [cloudflare], [RoundTrip] returns
    that response as it is; the transport has been called once, and
    nothing else has happened. *)
Theorem RoundTrip_passes_through (r : http.Request) (w : World)
    (resp : http.Response) (wire' : W) :
  upstream_RoundTrip (first_request r w) (wire w) = (Ok resp, wire') →
  http.StatusCode resp ≠ 503%Z ∨
  strings.HasPrefix (http.Get (http.RespHeader resp) "Server") "cloudflare" = false →
  RoundTrip r w =
    (Returns (Ok resp),
     mkWorld wire' (cookies w) (trace w ++ [RoundTripped (first_request r w)])).
Proof.
  intros Hup Hno. apply is_challenge_false in Hno.
  unfold RoundTrip, bind, Cookies, upstream, first_request in *.
  rewrite Hup, Hno. reflexivity.
Qed.

(** *** Inversion of [buildAnswerRequest] *)


Lemma buildAnswerRequest_Ok (resp : http.Response) (req : http.Request) :
  buildAnswerRequest resp = Returns (Ok req) →
  ∃ js num parsed,
    http.ReadErr resp = None ∧
    extractJS (http.RespBody resp) (url.Host (http.URL (http.Sent resp))) = Ok js ∧
    evaluateJS js = Returns (num, None) ∧
    url_Parse (URL_String (answerURL resp (fmt.Sprintf_10f num))) = Ok parsed ∧
    req = built resp parsed.
Proof.
  unfold buildAnswerRequest, NewRequest. intros Hb.
  destruct (http.ReadErr resp); [discriminate|].
  destruct (extractJS _ _) as [js|]; [|discriminate].
  destruct (evaluateJS js) as [[num [e|]]| |] eqn:Hev; try discriminate.
  destruct (url_Parse _) as [parsed|] eqn:Hp; [|discriminate].
  exists js, num, parsed. repeat split; try assumption.
  now inversion Hb.
Qed.

Lemma buildAnswerRequest_built (resp : http.Response) (js : string) (num : float)
    (parsed : url.URL) :
  http.ReadErr resp = None →
  extractJS (http.RespBody resp) (url.Host (http.URL (http.Sent resp))) = Ok js →
  evaluateJS js = Returns (num, None) →
  url_Parse (URL_String (answerURL resp (fmt.Sprintf_10f num))) = Ok parsed →
  buildAnswerRequest resp = Returns (Ok (built resp parsed)).
Proof.
  unfold buildAnswerRequest, NewRequest. intros -> -> -> ->. reflexivity.
Qed.

(** *** The script pattern *)

Lemma lit_not_prefix (s inp : string) :
  String.prefix s inp = false → regexp.lit s inp = None.
Proof.
  revert inp. induction s as [|a s IH]; intros [|b inp]; simpl; try discriminate; auto.
  destruct (ascii_dec a b) as [->|Hne].
  - rewrite Ascii.eqb_refl. apply IH.
  - intros _. apply Ascii.eqb_neq in Hne. now rewrite Hne.
Qed.

Lemma contains_cons (sub : string) (c : ascii) (s : string) :
  contains sub (String c s) = false →
  String.prefix sub (String c s) = false ∧ contains sub s = false.
Proof.
  intros Hc. change (contains sub (String c s))
    with (String.prefix sub (String c s) || contains sub s) in Hc.
  now apply orb_false_elim in Hc.
Qed.

(** A page without the text [setTimeout(function(){] has no match of
    [jsRE]. *)
Lemma jsRE_needs_setTimeout (body : string) :
  contains "setTimeout(function(){" body = false →
  FindStringSubmatch jsRE body = [].
Proof.
  intros Hc. unfold FindStringSubmatch.
  assert (Hf : regexp.find jsRE body = None); [|now rewrite Hf].
  induction body as [|c body IH].
  - reflexivity.
  - apply contains_cons in Hc as [Hp Hc].
    cbn [regexp.find]. unfold regexp.match_at, jsRE. cbn [regexp.run].
    rewrite (lit_not_prefix _ _ Hp). now apply IH.
Qed.

(** C2. On a challenge page that [jsRE] does not match, [extractJS] fails
    with the not-found error, and [RoundTrip] returns that error and no
    response, after the one call of the transport that brought the page. *)
Theorem RoundTrip_script_not_found (r : http.Request) (w : World)
    (resp : http.Response) (wire' : W) :
  upstream_RoundTrip (first_request r w) (wire w) = (Ok resp, wire') →
  is_challenge resp = true →
  http.ReadErr resp = None →
  FindStringSubmatch jsRE (http.RespBody resp) = [] →
  (∀ domain, extractJS (http.RespBody resp) domain = Err errNotFound) ∧
  buildAnswerRequest resp = Returns (Err errNotFound) ∧
  RoundTrip r w =
    (Returns (Err errNotFound),
     mkWorld wire' (cookies w) (trace w ++ [RoundTripped (first_request r w)])).
Proof.
  intros Hup Hch Hread Habs.
  assert (Hex : ∀ domain, extractJS (http.RespBody resp) domain = Err errNotFound).
  { intros domain. unfold extractJS. now rewrite Habs. }
  assert (Hb : buildAnswerRequest resp = Returns (Err errNotFound)).
  { unfold buildAnswerRequest. now rewrite Hread, Hex. }
  repeat split; try assumption.
  unfold RoundTrip, bind, Cookies, upstream, lift, first_request in *.
  rewrite Hup, Hch, Hb. reflexivity.
Qed.

(** C9. One call of [RoundTrip] calls the transport once with the
    caller's request and then at most once more: what follows the first
    call in the trace is nothing, or the sleep and the one submission of
    the answer built from a challenge page. *)
Theorem RoundTrip_at_most_two (r : http.Request) (w : World) :
  ∃ rest : list Event,
    trace (RoundTrip r w).2 = trace w ++ RoundTripped (first_request r w) :: rest ∧
    (round_trips rest ≤ 1)%nat ∧
    (round_trips (RoundTripped (first_request r w) :: rest) ≤ 2)%nat ∧
    (rest = [] ∨
     ∃ resp wire' req,
       upstream_RoundTrip (first_request r w) (wire w) = (Ok resp, wire') ∧
       is_challenge resp = true ∧
       buildAnswerRequest resp = Returns (Ok req) ∧
       rest = [Slept 5; RoundTripped req]).
Proof.
  unfold RoundTrip, bind, Cookies, upstream, lift, Sleep, SetCookies, ret, first_request.
  destruct (upstream_RoundTrip _ (wire w)) as [[resp|e] w1] eqn:Hup; cbn;
    [|exists []; cbn; auto with lia].
  destruct (is_challenge resp) eqn:Hch; cbn; [|exists []; cbn; auto with lia].
  destruct (buildAnswerRequest resp) as [[req|e]| |] eqn:Hb; cbn;
    try solve [exists []; cbn; auto with lia].
  exists [Slept 5; RoundTripped req].
  assert (Hshape : ∀ t : list Event,
            ((t ++ [RoundTripped (outgoing r (jar_Cookies (cookies w) (http.URL r)))])
               ++ [Slept 5]) ++ [RoundTripped req]
            = t ++ RoundTripped (outgoing r (jar_Cookies (cookies w) (http.URL r)))
                :: [Slept 5; RoundTripped req]).
  { intros t. now rewrite <- !app_assoc. }
  destruct (upstream_RoundTrip req w1) as [[resp2|e] w2]; cbn;
    [destruct (readSetCookies _); cbn|];
    (split; [apply Hshape|]); cbn; (split; [lia|]); (split; [lia|]);
    right; exists resp, w1, req; auto.
Qed.

(** C6. A call of [RoundTrip] leaves the cookie jar as it was, unless the
    first response was a challenge, the answer request was built, its round
    trip returned a response, and that response carries at least one cookie:
    then the jar has these cookies set for the URL of the second response's
    request. *)
Theorem RoundTrip_jar_frame (r : http.Request) (w : World) :
  cookies (RoundTrip r w).2 = cookies w ∨
  ∃ resp w1 req resp2 w2 c cs,
    upstream_RoundTrip (first_request r w) (wire w) = (Ok resp, w1) ∧
    is_challenge resp = true ∧
    buildAnswerRequest resp = Returns (Ok req) ∧
    upstream_RoundTrip req w1 = (Ok resp2, w2) ∧
    readSetCookies (http.RespHeader resp2) = c :: cs ∧
    (RoundTrip r w).1 = Returns (Ok resp2) ∧
    cookies (RoundTrip r w).2 =
      jar_SetCookies (cookies w) (http.URL (http.Sent resp2)) (c :: cs).
Proof.
  unfold RoundTrip, bind, Cookies, upstream, lift, Sleep, SetCookies, ret, first_request.
  destruct (upstream_RoundTrip _ (wire w)) as [[resp|e] w1] eqn:Hup; cbn; auto.
  destruct (is_challenge resp) eqn:Hch; cbn; auto.
  destruct (buildAnswerRequest resp) as [[req|e]| |] eqn:Hb; cbn; auto.
  destruct (upstream_RoundTrip req w1) as [[resp2|e] w2] eqn:Hup2; cbn; auto.
  destruct (readSetCookies _) as [|c cs] eqn:Hcs; cbn; auto.
  right. exists resp, w1, req, resp2, w2, c, cs. auto 10.
Qed.

(** C10. Whatever the method and body of the original request, the request
    [buildAnswerRequest] returns has method GET and no body. *)
Theorem answer_request_is_GET (resp : http.Response) (req : http.Request) :
  buildAnswerRequest resp = Returns (Ok req) →
  http.Method req = "GET" ∧ http.Body req = None.
Proof.
  intros Hb. apply buildAnswerRequest_Ok in Hb as (js & num & parsed & _ & _ & _ & _ & ->).
  split; reflexivity.
Qed.

(** *** Sanitising the script *)

Lemma strip_is_filter (s : string) :
  ReplaceAllString jsReplace3RE s [] = string_filter clean s.
Proof.
  unfold ReplaceAllString, jsReplace3RE. induction s as [|c t IH]; [reflexivity|].
  cbn [regexp.replace_from string_filter]. unfold regexp.match_at, clean.
  cbn [regexp.run]. destruct (strip_class c); cbn [negb].
  - cbn [String.length regexp.whole].
    replace (S (String.length t) - String.length t)%nat with 1%nat by lia.
    cbn. replace (substring 0 0 t) with "" by (destruct t; reflexivity).
    exact IH.
  - now rewrite IH.
Qed.

Lemma string_forall_filter (p : ascii → bool) (s : string) :
  string_forall p (string_filter p s) = true.
Proof.
  induction s as [|c t IH]; [reflexivity|]. cbn.
  destruct (p c) eqn:Hp; [cbn; now rewrite Hp|exact IH].
Qed.

(** C3. On the fixture page and the host [example.com], of 11 bytes,
    [extractJS] returns the script block with, in this order, the final
    assignment reduced to its arithmetic right-hand side, the indented
    mutation lines dropped, [t.length] replaced by [11], and every line
    feed, backslash and single quote removed.  The last point holds of
    every script [extractJS] returns. *)
Theorem extractJS_fixture :
  let block := nth 1 (FindStringSubmatch jsRE fixture_body) "" in
  String.length "example.com" = 11%nat ∧
  contains "a.value = parseInt(xYzAbcd.kLm, 10) + t.length; '; 121'" block = true ∧
  contains "a.value" (stage1 block) = false ∧
  ends_with "parseInt(xYzAbcd.kLm, 10) + t.length" (stage1 block) = true ∧
  stage2 (stage1 block) = fixture_kept +:+ "t.length" ∧
  contains "t.length" fixture_kept = false ∧
  stage3 "example.com" (stage2 (stage1 block)) = fixture_kept +:+ "11" ∧
  stage4 (fixture_kept +:+ "11") = fixture_script ∧
  extractJS fixture_body "example.com" = Ok fixture_script ∧
  contains "t.length" fixture_script = false ∧
  string_forall clean fixture_script = true ∧
  ends_with "parseInt(xYzAbcd.kLm, 10) + 11" fixture_script = true ∧
  (∀ body domain js,
     extractJS body domain = Ok js →
     js = stage4 (stage3 domain (stage2 (stage1 (nth 1 (FindStringSubmatch jsRE body) "")))) ∧
     string_forall clean js = true).
Proof.
  cbv zeta. repeat (split; [vm_compute; reflexivity|]).
  intros body domain js Hex. unfold extractJS in Hex.
  destruct (FindStringSubmatch jsRE body) as [|m0 ms] eqn:Hm; [discriminate|].
  inversion Hex as [Hjs]. split; [reflexivity|].
  rewrite strip_is_filter. apply string_forall_filter.
Qed.

(** *** The verb [%.10f] *)

Lemma string_length_app (a b : string) :
  String.length (a +:+ b) = (String.length a + String.length b)%nat.
Proof.
  induction a as [|c a IH]; [reflexivity|].
  change (S (String.length (a +:+ b)) = S (String.length a + String.length b)).
  now rewrite IH.
Qed.

Lemma string_forall_app (p : ascii → bool) (a b : string) :
  string_forall p (a +:+ b) = string_forall p a && string_forall p b.
Proof.
  induction a as [|c a IH]; [reflexivity|].
  change (p c && string_forall p (a +:+ b) = p c && string_forall p a && string_forall p b).
  rewrite IH. now destruct (p c).
Qed.

Lemma digit_is_digit (x : Z) : fmt.is_digit (fmt.digit (x mod 10)) = true.
Proof.
  pose proof (Z.mod_pos_bound x 10 eq_refl) as Hb.
  unfold fmt.digit.
  assert (Hn : (Z.to_nat (x mod 10) < 10)%nat) by lia.
  revert Hn. generalize (Z.to_nat (x mod 10)). clear. intros n Hn.
  do 10 (destruct n as [|n]; [reflexivity|]). lia.
Qed.

Lemma digits_length (n : nat) (x : Z) : String.length (fmt.digits n x) = n.
Proof.
  revert x. induction n as [|n IH]; intros x; cbn [fmt.digits]; [reflexivity|].
  rewrite string_length_app, IH. cbn. lia.
Qed.

Lemma digits_are_digits (n : nat) (x : Z) :
  string_forall fmt.is_digit (fmt.digits n x) = true.
Proof.
  revert x. induction n as [|n IH]; intros x; cbn [fmt.digits]; [reflexivity|].
  rewrite string_forall_app, IH. cbn [string_forall andb].
  now rewrite digit_is_digit.
Qed.

Lemma uint_digits (d : Decimal.uint) :
  string_forall fmt.is_digit (NilEmpty.string_of_uint d) = true.
Proof. induction d; cbn [NilEmpty.string_of_uint string_forall]; auto. Qed.

Lemma natural_digits (x : Z) :
  fmt.natural x ≠ "" ∧ string_forall fmt.is_digit (fmt.natural x) = true.
Proof.
  unfold fmt.natural, NilZero.string_of_uint.
  destruct (N.to_uint (Z.to_N x)) as [|d|d|d|d|d|d|d|d|d|d];
    (split; [discriminate|]); cbn [NilEmpty.string_of_uint string_forall];
    try reflexivity; apply uint_digits.
Qed.


Lemma Sprintf_10f_finite (x : float) :
  fmt.is_finite x = true → ten_fraction_digits (fmt.Sprintf_10f x).
Proof.
  unfold fmt.is_finite, fmt.Sprintf_10f, fmt.fixed, ten_fraction_digits.
  destruct (Prim2SF x) as [sg|sg| |sg m e]; try discriminate; intros _.
  - exists (fmt.sign sg), "0", (fmt.digits 10 0). repeat split; try reflexivity.
    + destruct sg; auto.
    + discriminate.
  - eexists (fmt.sign sg), _, _. split; [reflexivity|].
    split; [destruct sg; auto|].
    split; [apply natural_digits|]. split; [apply natural_digits|].
    split; [apply digits_length|apply digits_are_digits].
Qed.

(** *** The answer request *)

Lemma resolve_chk (u : url.URL) :
  url.ResolveReference u chkURL =
    url.mkURL (url.Scheme u) "" (url.User u) (url.Host u) "/cdn-cgi/l/chk_jschl"
              "" false "" "".
Proof. reflexivity. Qed.

Lemma answerParams_answer (b answer : string) :
  answerParams b answer !! "jschl_answer" = Some [answer].
Proof. unfold answerParams. apply lookup_insert_eq. Qed.

Lemma answerParams_vc (b answer : string) :
  answerParams b answer !! "jschl_vc" =
    match FindStringSubmatch jschlRE b with
    | [] => None
    | m => Some [nth 1 m ""]
    end.
Proof.
  unfold answerParams.
  destruct (FindStringSubmatch jschlRE b), (FindStringSubmatch passRE b);
    now simplify_map_eq.
Qed.

Lemma answerParams_pass (b answer : string) :
  answerParams b answer !! "pass" =
    match FindStringSubmatch passRE b with
    | [] => None
    | m => Some [nth 1 m ""]
    end.
Proof.
  unfold answerParams.
  destruct (FindStringSubmatch jschlRE b), (FindStringSubmatch passRE b);
    now simplify_map_eq.
Qed.

Lemma answerParams_keys (b answer k : string) :
  is_Some (answerParams b answer !! k) →
  k = "jschl_vc" ∨ k = "pass" ∨ k = "jschl_answer".
Proof.
  unfold answerParams. intros [v Hv].
  destruct (decide (k = "jschl_answer")) as [|Ha]; [auto|].
  destruct (decide (k = "pass")) as [|Hp]; [auto|].
  destruct (decide (k = "jschl_vc")) as [|Hvc]; [auto|].
  destruct (FindStringSubmatch jschlRE b), (FindStringSubmatch passRE b);
    now simplify_map_eq.
Qed.


(** *** Copying the header *)


Lemma at_key_Add (h : gmap string (list string)) (key v c : string) :
  at_key (http.Add h key v) c =
    if decide (c = http.CanonicalMIMEHeaderKey key) then at_key h c ++ [v] else at_key h c.
Proof.
  unfold at_key, http.Add, http.Values. case_decide as Hc.
  - subst c. now rewrite lookup_insert_eq.
  - now rewrite lookup_insert_ne.
Qed.

Lemma at_key_add_all (vals : list string) (h : gmap string (list string)) (key c : string) :
  at_key (foldl (fun h val => http.Add h key val) h vals) c =
    if decide (c = http.CanonicalMIMEHeaderKey key) then at_key h c ++ vals else at_key h c.
Proof.
  revert h. induction vals as [|v vals IH]; intros h; cbn [foldl].
  - case_decide; [now rewrite app_nil_r|reflexivity].
  - rewrite IH, at_key_Add. case_decide; [now rewrite <- app_assoc|reflexivity].
Qed.

Lemma at_key_Set (h : gmap string (list string)) (key v c : string) :
  at_key (http.Set_ h key v) c =
    if decide (c = http.CanonicalMIMEHeaderKey key) then [v] else at_key h c.
Proof.
  unfold at_key, http.Set_. case_decide as Hc.
  - subst c. now rewrite lookup_insert_eq.
  - now rewrite lookup_insert_ne.
Qed.

(** Every value of the source is among the values the copy holds under the
    canonical form of its key. *)
Lemma copyHeader_holds (src dst : gmap string (list string)) (key : string)
    (vals : list string) (v : string) :
  src !! key = Some vals → v ∈ vals →
  v ∈ at_key (copyHeader src dst) (http.CanonicalMIMEHeaderKey key).
Proof.
  unfold copyHeader. revert key vals v.
  apply (map_fold_weak_ind
           (fun r (m : gmap string (list string)) =>
              ∀ key vals v, m !! key = Some vals → v ∈ vals →
                            v ∈ at_key r (http.CanonicalMIMEHeaderKey key))).
  - intros key vals v Hk. now rewrite lookup_empty in Hk.
  - intros i x m r Hi IH key vals v Hk Hv. rewrite at_key_add_all.
    destruct (decide (key = i)) as [->|Hne].
    + rewrite lookup_insert_eq in Hk. inversion Hk; subst x.
      rewrite decide_True by reflexivity. apply elem_of_app. now right.
    + rewrite lookup_insert_ne in Hk by congruence.
      specialize (IH key vals v Hk Hv).
      case_decide; [apply elem_of_app; now left|exact IH].
Qed.

(** When the keys of the source are canonical, the copy into an empty map
    holds under each key the values of the source, in their order. *)
Lemma copyHeader_canonical (src : gmap string (list string)) (c : string) :
  (∀ k, is_Some (src !! k) → http.CanonicalMIMEHeaderKey k = k) →
  at_key (copyHeader src ∅) c = at_key src c.
Proof.
  unfold copyHeader. revert c.
  apply (map_fold_weak_ind
           (fun r (m : gmap string (list string)) =>
              ∀ c, (∀ k, is_Some (m !! k) → http.CanonicalMIMEHeaderKey k = k) →
                   at_key r c = at_key m c)).
  - reflexivity.
  - intros i x m r Hi IH c Hcan. rewrite at_key_add_all.
    assert (Hcan_i : http.CanonicalMIMEHeaderKey i = i).
    { apply Hcan. rewrite lookup_insert_eq. eauto. }
    assert (Hcan_m : ∀ k, is_Some (m !! k) → http.CanonicalMIMEHeaderKey k = k).
    { intros k Hk. apply Hcan. destruct (decide (k = i)) as [->|Hne].
      - rewrite lookup_insert_eq. eauto.
      - now rewrite lookup_insert_ne by congruence. }
    rewrite Hcan_i. unfold at_key at 3. case_decide as Hc.
    + subst c. rewrite lookup_insert_eq, (IH i Hcan_m). unfold at_key.
      now rewrite Hi.
    + rewrite lookup_insert_ne by congruence. now apply IH.
Qed.

(** C8. The answer request holds, under the canonical form of each key of
    the original request's header, every value the original holds under that
    key, except that its [Referer] is, in the end, the text of the original
    request's URL alone.  When the keys of the original header are
    canonical, as [Set] and [Add] leave them, each key other than [Referer]
    has exactly the original's values. *)
Theorem answer_request_header (resp : http.Response) (req : http.Request) :
  buildAnswerRequest resp = Returns (Ok req) →
  let orig := http.Sent resp in
  http.Values (http.Header req) "Referer" = [URL_String (http.URL orig)] ∧
  (∀ key vals v,
     http.Header orig !! key = Some vals → v ∈ vals →
     http.CanonicalMIMEHeaderKey key ≠ "Referer" →
     v ∈ http.Values (http.Header req) key) ∧
  ((∀ k, is_Some (http.Header orig !! k) → http.CanonicalMIMEHeaderKey k = k) →
   ∀ key, http.CanonicalMIMEHeaderKey key ≠ "Referer" →
          http.Values (http.Header req) key = http.Values (http.Header orig) key).
Proof.
  intros Hb. apply buildAnswerRequest_Ok in Hb as (js & num & parsed & _ & _ & _ & _ & ->).
  cbv zeta. unfold built. cbn [http.Header].
  change (http.Values ?h ?k) with (at_key h (http.CanonicalMIMEHeaderKey k)).
  split; [|split].
  - rewrite at_key_Set. now rewrite decide_True by reflexivity.
  - intros key vals v Hk Hv Hne. rewrite at_key_Set.
    rewrite decide_False by exact Hne. eapply copyHeader_holds; eassumption.
  - intros Hcan key Hne.
    change (http.Values ?h ?k) with (at_key h (http.CanonicalMIMEHeaderKey k)).
    rewrite at_key_Set. rewrite decide_False by exact Hne.
    now apply copyHeader_canonical.
Qed.

(** *** A page without the [jschl_vc] field *)

(** Every field of an encoded query comes from a key of the map and one of
    its values. *)
Lemma in_pairs (v : gmap string (list string)) (field : string) :
  In field (url.pairs v) →
  ∃ k vals x, v !! k = Some vals ∧ In x vals ∧
              field = url.QueryEscape k +:+ "=" +:+ url.QueryEscape x.
Proof.
  unfold url.pairs, url.sorted_keys. intros Hin.
  apply in_flat_map in Hin as (k & Hk & Hf).
  apply in_map_iff in Hf as (x & <- & Hx).
  apply list_elem_of_In in Hk. rewrite merge_sort_Permutation in Hk.
  apply list_elem_of_In, in_map_iff in Hk as ([k' vals] & Hfst & Hkv).
  cbn in Hfst. subst k'. apply list_elem_of_In, elem_of_map_to_list in Hkv.
  exists k, vals, x. rewrite Hkv in Hx. auto.
Qed.

(** C7, as the code has it.  When the page has no [jschl_vc] field, its
    absence does not make [buildAnswerRequest] fail: the request is built
    whenever the script is found, its evaluation returns a number and the
    target URL parses.  The query then has no parameter [jschl_vc] at all,
    neither with an empty value nor with any other: none of its fields
    begins with [jschl_vc]. *)
Theorem answer_request_without_vc (resp : http.Response) (js : string)
    (num : float) (parsed : url.URL) :
  FindStringSubmatch jschlRE (http.RespBody resp) = [] →
  http.ReadErr resp = None →
  extractJS (http.RespBody resp) (url.Host (http.URL (http.Sent resp))) = Ok js →
  evaluateJS js = Returns (num, None) →
  url_Parse (URL_String (answerURL resp (fmt.Sprintf_10f num))) = Ok parsed →
  let params := answerParams (http.RespBody resp) (fmt.Sprintf_10f num) in
  buildAnswerRequest resp = Returns (Ok (built resp parsed)) ∧
  url.RawQuery (answerURL resp (fmt.Sprintf_10f num)) = url.join_amp (url.pairs params) ∧
  params !! "jschl_vc" = None ∧
  (∀ field, In field (url.pairs params) → String.prefix "jschl_vc" field = false).
Proof.
  intros Hvc Hread Hex Hev Hp. cbv zeta.
  split; [now apply (buildAnswerRequest_built resp js num parsed)|].
  split; [reflexivity|].
  split; [now rewrite answerParams_vc, Hvc|].
  intros field Hin. apply in_pairs in Hin as (k & vals & x & Hk & _ & ->).
  assert (Hsome : is_Some (answerParams (http.RespBody resp) (fmt.Sprintf_10f num) !! k))
    by eauto.
  apply answerParams_keys in Hsome as [->|[->| ->]].
  - now rewrite answerParams_vc, Hvc in Hk.
  - reflexivity.
  - reflexivity.
Qed.

(** *** A script that outlives the deadline *)

(** C5, as the code has it.  When the timer fires first and the engine
    takes the interrupt, [evaluateJS] returns the zero result with the error
    labelled as a script that ran for too long, an error that is none of the
    others; [buildAnswerRequest] returns that error, and [RoundTrip] returns
    it to the caller after the one call of the transport that brought the
    page: no answer is submitted and nothing is tried again. *)
Theorem evaluateJS_timeout (js : string) :
  sandbox js = timer_first true →
  evaluateJS js = Returns (0%float, Some errTooLong) ∧
  errTooLong = errorString "The unsafe Javascript ran for too long" ∧
  errTooLong ≠ errNotFound ∧ errTooLong ≠ errHalt ∧
  (∀ msg, errTooLong ≠ foreignError msg) ∧
  (∀ resp : http.Response,
     http.ReadErr resp = None →
     extractJS (http.RespBody resp) (url.Host (http.URL (http.Sent resp))) = Ok js →
     buildAnswerRequest resp = Returns (Err errTooLong) ∧
     ∀ (r : http.Request) (w : World) (wire' : W),
       upstream_RoundTrip (first_request r w) (wire w) = (Ok resp, wire') →
       is_challenge resp = true →
       RoundTrip r w =
         (Returns (Err errTooLong),
          mkWorld wire' (cookies w) (trace w ++ [RoundTripped (first_request r w)]))).
Proof.
  intros Hrun.
  assert (Hev : evaluateJS js = Returns (0%float, Some errTooLong)).
  { unfold evaluateJS. rewrite Hrun. reflexivity. }
  split; [exact Hev|]. split; [reflexivity|].
  split; [discriminate|]. split; [discriminate|]. split; [discriminate|].
  intros resp Hread Hex.
  assert (Hb : buildAnswerRequest resp = Returns (Err errTooLong)).
  { unfold buildAnswerRequest. now rewrite Hread, Hex, Hev. }
  split; [exact Hb|]. intros r w wire' Hup Hch.
  unfold RoundTrip, bind, Cookies, upstream, lift, first_request in *.
  rewrite Hup, Hch, Hb. reflexivity.
Qed.

End Properties.

(** * The properties on the fixtures *)

Lemma RoundTrip_passes_through_witness :
  let first := first_request (example_request "GET") (start []) in
  RoundTrip (example_request "GET") (start [origin_503]) =
    (Returns (origin_503 first), mkWorld [] ∅ [RoundTripped first]) ∧
  RoundTrip (example_request "GET") (start [not_found; cleared]) =
    (Returns (not_found first), mkWorld [cleared] ∅ [RoundTripped first]).
Proof.
  cbv zeta. split.
  - apply (RoundTrip_passes_through (example_request "GET") (start [origin_503])).
    + reflexivity.
    + right. vm_compute. reflexivity.
  - apply (RoundTrip_passes_through (example_request "GET") (start [not_found; cleared])).
    + reflexivity.
    + left. vm_compute. discriminate.
Defined.

Lemma RoundTrip_script_not_found_witness :
  extractJS plain_body "example.com" = Err errNotFound ∧
  RoundTrip (example_request "GET") (start [challenge_with plain_body; cleared]) =
    (Returns (Err errNotFound),
     mkWorld [cleared] ∅
       [RoundTripped (first_request (example_request "GET") (start []))]).
Proof.
  destruct (RoundTrip_script_not_found (example_request "GET")
              (start [challenge_with plain_body; cleared])
              (challenged "GET" plain_body) [cleared]) as (Hex & _ & Hrt).
  - reflexivity.
  - vm_compute. reflexivity.
  - reflexivity.
  - apply jsRE_needs_setTimeout. vm_compute. reflexivity.
  - split; [apply Hex | exact Hrt].
Defined.

Lemma extractJS_fixture_witness :
  extractJS fixture_body "example.com" = Ok fixture_script ∧
  string_forall clean fixture_script = true.
Proof.
  destruct extractJS_fixture as (_ & _ & _ & _ & _ & _ & _ & _ & Hex & _ & _ & _ & Hall).
  split; [exact Hex|].
  apply (Hall fixture_body "example.com" fixture_script). vm_compute. reflexivity.
Defined.


Lemma answer_request_header_witness :
  let req := built (challenged "POST" fixture_body) fixture_target in
  http.Values (http.Header req) "Referer" = ["http://example.com/path"] ∧
  http.Values (http.Header req) "Accept" = ["text/html"; "*/*"] ∧
  http.Values (http.Header req) "X-Trace" = ["1"] ∧
  http.Values (http.Header req) "User-Agent" = [UserAgent].
Proof.
  cbv zeta.
  destruct (answer_request_header (challenged "POST" fixture_body)
              (built (challenged "POST" fixture_body) fixture_target))
    as (Href & _ & Hsame).
  - vm_compute. reflexivity.
  - split; [exact Href|].
    assert (Hcan : ∀ k, is_Some (http.Header (http.Sent (challenged "POST" fixture_body)) !! k) →
                        http.CanonicalMIMEHeaderKey k = k).
    { intros k [vals Hk]. revert k vals Hk.
      change (map_Forall (fun k _ => http.CanonicalMIMEHeaderKey k = k)
                (http.Header (http.Sent (challenged "POST" fixture_body)))).
      apply (bool_decide_unpack _). vm_compute. exact I. }
    split; [|split];
      (rewrite (Hsame Hcan); [vm_compute; reflexivity|vm_compute; discriminate]).
Defined.

(** C7, as stated, fails on the fixture page without its [jschl_vc] field:
    the page has the script, the request is built, and its query is
    [jschl_answer=12345.6000000000&pass=1530000000.123-AbCdEfGhIj], without a
    parameter [jschl_vc]. *)
Lemma missing_vc_not_an_empty_parameter :
  FindStringSubmatch jsRE fixture_body_no_vc ≠ [] ∧
  FindStringSubmatch jschlRE fixture_body_no_vc = [] ∧
  buildAnswerRequest (challenged "GET" fixture_body_no_vc) =
    Returns (Ok (built (challenged "GET" fixture_body_no_vc) fixture_target_no_vc)) ∧
  ¬ carries_empty_vc (challenged "GET" fixture_body_no_vc).
Proof.
  split; [vm_compute; discriminate|]. split; [vm_compute; reflexivity|].
  assert (Hb : buildAnswerRequest (challenged "GET" fixture_body_no_vc) =
               Returns (Ok (built (challenged "GET" fixture_body_no_vc) fixture_target_no_vc)))
    by (vm_compute; reflexivity).
  split; [exact Hb|].
  intros (req & Hreq & Hempty). rewrite Hb in Hreq. inversion Hreq; subst req.
  clear Hb Hreq. vm_compute in Hempty. discriminate Hempty.
Qed.

Lemma answer_request_without_vc_witness :
  buildAnswerRequest (challenged "GET" fixture_body_no_vc) =
    Returns (Ok (built (challenged "GET" fixture_body_no_vc) fixture_target_no_vc)) ∧
  answerParams (http.RespBody (challenged "GET" fixture_body_no_vc))
               (fmt.Sprintf_10f 12345.6%float) !! "jschl_vc" = None.
Proof.
  destruct (answer_request_without_vc (challenged "GET" fixture_body_no_vc)
              fixture_script 12345.6%float fixture_target_no_vc)
    as (Hb & _ & Hnone & _).
  - vm_compute. reflexivity.
  - reflexivity.
  - vm_compute. reflexivity.
  - vm_compute. reflexivity.
  - vm_compute. reflexivity.
  - split; [exact Hb|exact Hnone].
Defined.

(** C5, as stated, fails on a script whose run outlives the deadline
    without the engine ever taking the interrupt: [evaluateJS] does not
    return, and neither does [RoundTrip]. *)
Lemma unresponsive_script_blocks :
  extractJS (page_with "spin();") "example.com" = Ok spin_script ∧
  exceeds_deadline (sandbox spin_script) = true ∧
  evaluateJS spin_script = Blocks ∧
  ¬ reports_timeout spin_script ∧
  RoundTrip (example_request "GET")
            (start [challenge_with (page_with "spin();"); cleared]) =
    (Blocks,
     mkWorld [cleared] ∅
       [RoundTripped (first_request (example_request "GET") (start []))]).
Proof.
  split; [vm_compute; reflexivity|]. split; [vm_compute; reflexivity|].
  split; [vm_compute; reflexivity|]. split; [|vm_compute; reflexivity].
  intros Hclaim. destruct Hclaim as [num Hnum]; [vm_compute; reflexivity|].
  vm_compute in Hnum. discriminate Hnum.
Qed.

Lemma evaluateJS_timeout_witness :
  extractJS (page_with "for(;;){x++};") "example.com" = Ok loop_script ∧
  evaluateJS loop_script = Returns (0%float, Some errTooLong) ∧
  RoundTrip (example_request "GET")
            (start [challenge_with (page_with "for(;;){x++};"); cleared]) =
    (Returns (Err errTooLong),
     mkWorld [cleared] ∅
       [RoundTripped (first_request (example_request "GET") (start []))]).
Proof.
  destruct (evaluateJS_timeout loop_script) as (Hev & _ & _ & _ & _ & Hrt).
  - vm_compute. reflexivity.
  - split; [vm_compute; reflexivity|]. split; [exact Hev|].
    destruct (Hrt (challenged "GET" (page_with "for(;;){x++};"))) as [_ Hround].
    + reflexivity.
    + vm_compute. reflexivity.
    + apply (Hround (example_request "GET")
               (start [challenge_with (page_with "for(;;){x++};"); cleared]) [cleared]).
      * reflexivity.
      * vm_compute. reflexivity.
Defined.

Lemma answer_request_is_GET_witness :
  http.Method (http.Sent (challenged "POST" fixture_body)) = "POST" ∧
  http.Method (built (challenged "POST" fixture_body) fixture_target) = "GET" ∧
  http.Body (built (challenged "POST" fixture_body) fixture_target) = None.
Proof.
  split; [reflexivity|].
  apply (answer_request_is_GET (challenged "POST" fixture_body)).
  vm_compute. reflexivity.
Defined.

(** * Further properties *)

(** ** What the expressions match *)

Lemma string_app_assoc (a b c : string) : (a +:+ b) +:+ c = a +:+ (b +:+ c).
Proof.
  induction a as [|x a IH]; [reflexivity|].
  change (String x ((a +:+ b) +:+ c) = String x (a +:+ (b +:+ c))). now rewrite IH.
Qed.

Lemma string_app_nil_r (a : string) : a +:+ "" = a.
Proof.
  induction a as [|x a IH]; [reflexivity|].
  change (String x (a +:+ "") = String x a). now rewrite IH.
Qed.

Lemma substring_0_0 (s : string) : substring 0 0 s = "".
Proof. destruct s; reflexivity. Qed.

Lemma substring_taken (w rest : string) :
  substring 0 (String.length (w +:+ rest) - String.length rest) (w +:+ rest) = w.
Proof.
  rewrite string_length_app.
  replace (String.length w + String.length rest - String.length rest)%nat
    with (String.length w) by lia.
  induction w as [|x w IH]; [apply substring_0_0|].
  change (String x (substring 0 (String.length w) (w +:+ rest)) = String x w).
  now rewrite IH.
Qed.

Lemma lit_sound (s inp rest : string) :
  regexp.lit s inp = Some rest → inp = s +:+ rest.
Proof.
  revert inp. induction s as [|a s IH]; intros [|b inp]; cbn [regexp.lit];
    try discriminate; try (intros [= <-]; reflexivity).
  destruct (Ascii.eqb a b) eqn:Hab; [|discriminate].
  apply Ascii.eqb_eq in Hab as <-. intros Hl. apply IH in Hl as ->. reflexivity.
Qed.

Lemma rep_sound {R : Type} (p : ascii → bool) (greedy : bool) (inp : string) :
  ∀ (min : nat) (k : string → option R) (res : R),
    regexp.rep p greedy min inp k = Some res →
    ∃ w rest, inp = w +:+ rest ∧ string_forall p w = true ∧
              (min ≤ String.length w)%nat ∧ k rest = Some res.
Proof.
  assert (Hstop : ∀ (s : string) (min : nat) (k : string → option R) (res : R),
            match min with O => k s | S _ => None end = Some res →
            ∃ w rest, s = w +:+ rest ∧ string_forall p w = true ∧
                      (min ≤ String.length w)%nat ∧ k rest = Some res).
  { intros s [|min] k res Hk; [|discriminate]. exists "", s. auto. }
  assert (Hmore : ∀ (c : ascii) (t : string) (min : nat) (k : string → option R) (res : R),
            p c = true →
            (∃ w rest, t = w +:+ rest ∧ string_forall p w = true ∧
                       (Nat.pred min ≤ String.length w)%nat ∧ k rest = Some res) →
            ∃ w rest, String c t = w +:+ rest ∧ string_forall p w = true ∧
                      (min ≤ String.length w)%nat ∧ k rest = Some res).
  { intros c t min k res Hc (w & rest & -> & Hw & Hmin & Hk).
    exists (String c w), rest. repeat split; [|cbn; lia|exact Hk].
    cbn [string_forall]. now rewrite Hc, Hw. }
  induction inp as [|c t IH]; intros min k res; cbn [regexp.rep].
  - apply Hstop.
  - destruct (p c) eqn:Hc; [|apply Hstop]. destruct greedy.
    + destruct (regexp.rep p true (Nat.pred min) t k) as [r|] eqn:Hr.
      * intros [= ->]. apply Hmore; [exact Hc|]. now apply IH.
      * apply Hstop.
    + destruct (match min with O => k (String c t) | S _ => None end) as [r|] eqn:Hs.
      * intros [= ->]. now apply Hstop.
      * intros Hr. apply Hmore; [exact Hc|]. now apply IH.
Qed.

(** A successful run of the matcher has consumed a text the expression
    matches and handed the rest to its continuation. *)
Lemma run_sound (r : Regexp) :
  ∀ (inp : string) (g : option string) (k : regexp.cont) (res : regexp.found),
    regexp.run r inp g k = Some res →
    ∃ w rest g', inp = w +:+ rest ∧ sem r w g g' ∧ k rest g' = Some res.
Proof.
  induction r as [s|p|p min greedy|p|r1 IH1 r2 IH2|r1 IH1 r2 IH2|r1 IH1];
    intros inp g k res; cbn [regexp.run sem].
  - destruct (regexp.lit s inp) as [rest|] eqn:Hl; [|discriminate].
    apply lit_sound in Hl as ->. intros Hk. exists s, rest, g. auto.
  - destruct inp as [|c t]; [discriminate|]. destruct (p c) eqn:Hc; [|discriminate].
    intros Hk. exists (String c ""), t, g. repeat split; eauto.
  - intros Hrep. apply rep_sound in Hrep as (w & rest & -> & Hw & Hmin & Hk).
    exists w, rest, g. auto.
  - destruct inp as [|c t].
    + intros Hk. exists "", "", g. auto.
    + destruct (p c) eqn:Hc.
      * destruct (k t g) as [x|] eqn:Hkt.
        -- intros [= ->]. exists (String c ""), t, g. repeat split; eauto.
        -- intros Hk. exists "", (String c t), g. auto.
      * intros Hk. exists "", (String c t), g. auto.
  - destruct (regexp.run r1 inp g k) as [x|] eqn:H1.
    + intros [= ->]. apply IH1 in H1 as (w & rest & g' & -> & Hs & Hk). eauto 10.
    + intros H2. apply IH2 in H2 as (w & rest & g' & -> & Hs & Hk). eauto 10.
  - intros H1. apply IH1 in H1 as (w1 & rest1 & gm & -> & Hs1 & H2).
    apply IH2 in H2 as (w2 & rest & g' & -> & Hs2 & Hk).
    exists (w1 +:+ w2), rest, g'. rewrite string_app_assoc. eauto 10.
  - intros H1. apply IH1 in H1 as (w & rest & gi & -> & Hs & Hk).
    rewrite substring_taken in Hk. exists w, rest, (Some w). eauto 10.
Qed.

Lemma match_at_sound (r : Regexp) (inp : string) (m : regexp.Match) :
  regexp.match_at r inp = Some m →
  inp = regexp.whole m +:+ regexp.rest m ∧
  ∃ g', sem r (regexp.whole m) None g' ∧ regexp.group1 m = default "" g'.
Proof.
  unfold regexp.match_at.
  destruct (regexp.run r inp None _) as [[rest g]|] eqn:Hrun; [|discriminate].
  apply run_sound in Hrun as (w & rest' & g' & -> & Hs & [= <- <-]).
  intros [= <-]. cbn [regexp.whole regexp.rest regexp.group1].
  rewrite substring_taken. eauto.
Qed.

Lemma find_sound (r : Regexp) (s : string) (m : regexp.Match) :
  regexp.find r s = Some m →
  ∃ before g',
    s = before +:+ regexp.whole m +:+ regexp.rest m ∧
    sem r (regexp.whole m) None g' ∧ regexp.group1 m = default "" g'.
Proof.
  induction s as [|c t IH]; cbn [regexp.find].
  - destruct (regexp.match_at r "") as [m'|] eqn:Hm; [|discriminate].
    intros [= ->]. apply match_at_sound in Hm as (Hinp & g' & Hs & Hg).
    exists "", g'. auto.
  - destruct (regexp.match_at r (String c t)) as [m'|] eqn:Hm.
    + intros [= ->]. apply match_at_sound in Hm as (Hinp & g' & Hs & Hg).
      exists "", g'. auto.
    + intros Hf. apply IH in Hf as (before & g' & -> & Hs & Hg).
      exists (String c before), g'. auto.
Qed.

(** [FindStringSubmatch] returns nothing, or a text of the input that the
    expression matches, with the text of its group. *)
Lemma FindStringSubmatch_sound (r : Regexp) (s : string) :
  FindStringSubmatch r s = [] ∨
  ∃ before w after g',
    s = before +:+ w +:+ after ∧ sem r w None g' ∧
    FindStringSubmatch r s = [w; default "" g'].
Proof.
  unfold FindStringSubmatch. destruct (regexp.find r s) as [m|] eqn:Hf; [|now left].
  right. apply find_sound in Hf as (before & g' & Hs & Hsem & Hg).
  exists before, (regexp.whole m), (regexp.rest m), g'. rewrite Hg. auto.
Qed.

Lemma length_pos_nonempty (s : string) : (1 ≤ String.length s)%nat → s ≠ "".
Proof. destruct s; cbn; [lia|discriminate]. Qed.

(** What a match of [jschlRE] and of [passRE] is made of. *)
Lemma jschlRE_sound (body : string) :
  FindStringSubmatch jschlRE body = [] ∨
  ∃ before vc after,
    body = before +:+ field_open "jschl_vc" +:+ vc +:+ dq +:+ after ∧
    FindStringSubmatch jschlRE body = [field_open "jschl_vc" +:+ vc +:+ dq; vc] ∧
    vc ≠ "" ∧ string_forall regexp.word vc = true.
Proof.
  destruct (FindStringSubmatch_sound jschlRE body)
    as [->|(before & w & after & g' & Hbody & Hsem & Hfind)]; [now left|].
  right. rewrite Hfind. cbn [sem jschlRE] in Hsem.
  destruct Hsem as (w1 & w2 & gm & -> & [-> ->] & w3 & w4 & gm2 & -> &
                    [(gi & Hword & Hlen & _) ->] & [-> ->]).
  exists before, w3, after. cbn [default].
  split; [|split; [|split]].
  - rewrite Hbody, !string_app_assoc. reflexivity.
  - reflexivity.
  - now apply length_pos_nonempty.
  - exact Hword.
Qed.

Lemma passRE_sound (body : string) :
  FindStringSubmatch passRE body = [] ∨
  ∃ before pass after,
    body = before +:+ field_open "pass" +:+ pass +:+ dq +:+ after ∧
    FindStringSubmatch passRE body = [field_open "pass" +:+ pass +:+ dq; pass] ∧
    pass ≠ "" ∧ string_forall regexp.dot pass = true.
Proof.
  destruct (FindStringSubmatch_sound passRE body)
    as [->|(before & w & after & g' & Hbody & Hsem & Hfind)]; [now left|].
  right. rewrite Hfind. cbn [sem passRE] in Hsem.
  destruct Hsem as (w1 & w2 & gm & -> & [-> ->] & w3 & w4 & gm2 & -> &
                    [(gi & Hdot & Hlen & _) ->] & [-> ->]).
  exists before, w3, after. cbn [default].
  split; [|split; [|split]].
  - rewrite Hbody, !string_app_assoc. reflexivity.
  - reflexivity.
  - now apply length_pos_nonempty.
  - exact Hdot.
Qed.

(** X1. The [jschl_vc] parameter is never made up: when the answer request
    has one, its value is a non-empty run of word characters that stands in
    the page between [field_open] of [jschl_vc] and a double quote. *)
Theorem jschl_vc_from_page (body answer : string) :
  answerParams body answer !! "jschl_vc" = None ∨
  ∃ before vc after,
    body = before +:+ field_open "jschl_vc" +:+ vc +:+ dq +:+ after ∧
    answerParams body answer !! "jschl_vc" = Some [vc] ∧
    vc ≠ "" ∧ string_forall regexp.word vc = true.
Proof.
  rewrite answerParams_vc.
  destruct (jschlRE_sound body) as [->|(before & vc & after & Hbody & -> & Hne & Hword)];
    [now left|right].
  exists before, vc, after. cbn [nth]. auto.
Qed.

(** X2. The [pass] parameter is never made up either: when the answer
    request has one, its value is a non-empty text without a line feed that
    stands in the page between [field_open] of [pass] and a double quote. *)
Theorem pass_from_page (body answer : string) :
  answerParams body answer !! "pass" = None ∨
  ∃ before pass after,
    body = before +:+ field_open "pass" +:+ pass +:+ dq +:+ after ∧
    answerParams body answer !! "pass" = Some [pass] ∧
    pass ≠ "" ∧ string_forall regexp.dot pass = true.
Proof.
  rewrite answerParams_pass.
  destruct (passRE_sound body) as [->|(before & pass & after & Hbody & -> & Hne & Hdot)];
    [now left|right].
  exists before, pass, after. cbn [nth]. auto.
Qed.

(** X3. The script [extractJS] works on is text of the page: it follows
    [setTimeout(function(){] and white space, and is followed by a line
    end; it begins with the declaration [var s,t,o,p,b,r,e,a,k,i,n,g,f],
    runs over at least two lines and ends with a line that holds
    [a.value =]. *)
Theorem script_block_from_page (body : string) :
  FindStringSubmatch jsRE body = [] ∨
  ∃ before ws block eol after decl eol1 mid tail,
    body = before +:+ "setTimeout(function(){" +:+ ws +:+ block +:+ eol +:+ after ∧
    nth 1 (FindStringSubmatch jsRE body) "" = block ∧
    ws ≠ "" ∧ string_forall regexp.space ws = true ∧
    (eol = nl ∨ eol = String (ascii_of_nat 13) nl) ∧
    block = "var s,t,o,p,b,r,e,a,k,i,n,g,f" +:+ decl +:+ eol1 +:+ mid +:+
            "a.value =" +:+ tail ∧
    decl ≠ "" ∧ string_forall regexp.dot decl = true ∧
    (eol1 = nl ∨ eol1 = String (ascii_of_nat 13) nl) ∧
    mid ≠ "" ∧
    tail ≠ "" ∧ string_forall regexp.dot tail = true.
Proof.
  assert (Heol : ∀ a b : string,
            (a = "" ∨ ∃ c, a = String c "" ∧ regexp.cr c = true) → b = nl →
            a +:+ b = nl ∨ a +:+ b = String (ascii_of_nat 13) nl).
  { intros a b [->|(c & -> & Hc)] ->; [now left|right].
    unfold regexp.cr, byte_is in Hc. apply Nat.eqb_eq in Hc.
    rewrite <- (ascii_nat_embedding c), Hc. reflexivity. }
  destruct (FindStringSubmatch_sound jsRE body)
    as [->|(before & w & after & g' & Hbody & Hsem & Hfind)]; [now left|].
  right. rewrite Hfind. cbn [nth].
  cbn [sem jsRE] in Hsem.
  destruct Hsem as (w1 & w2 & g1 & -> & [-> ->] &
                    ws & w3 & g2 & -> & (Hws & Hwslen & ->) &
                    block & w4 & g3 & -> & [(gi & Hblock) ->] &
                    e1 & e2 & g4 & -> & [He1 ->] & [He2 ->]).
  destruct Hblock as (v & b1 & h1 & -> & [-> ->] &
                      decl & b2 & h2 & -> & (Hdecl & Hdecllen & ->) &
                      c1 & b3 & h3 & -> & [Hc1 ->] &
                      c2 & b4 & h4 & -> & [Hc2 ->] &
                      mid & b5 & h5 & -> & (_ & Hmidlen & ->) &
                      av & tail & h6 & -> & [-> ->] & (Htail & Htaillen & ->)).
  exists before, ws, ("var s,t,o,p,b,r,e,a,k,i,n,g,f" +:+ decl +:+ (c1 +:+ c2) +:+ mid +:+
                      "a.value =" +:+ tail),
         (e1 +:+ e2), after, decl, (c1 +:+ c2), mid, tail.
  cbn [default].
  split; [|split; [|split; [|split; [|split; [|split; [|split; [|split;
    [|split; [|split; [|split]]]]]]]]]].
  - rewrite Hbody, !string_app_assoc. reflexivity.
  - rewrite !string_app_assoc. reflexivity.
  - now apply length_pos_nonempty.
  - exact Hws.
  - now apply Heol.
  - reflexivity.
  - now apply length_pos_nonempty.
  - exact Hdecl.
  - now apply Heol.
  - now apply length_pos_nonempty.
  - now apply length_pos_nonempty.
  - exact Htail.
Qed.

(** ** Replacing the length of the domain *)

Lemma replace_skip (old new : string) (n : option nat) (s : string) :
  ∀ k, strings.replace_from old new n k s =
       strings.replace_from old new n 0 (string_drop k s).
Proof.
  induction s as [|c t IH]; intros [|k]; try reflexivity.
  cbn [strings.replace_from string_drop]. apply IH.
Qed.

Lemma prefix_cons (a b : ascii) (p s : string) :
  String.prefix (String a p) (String b s) = true ↔ a = b ∧ String.prefix p s = true.
Proof.
  cbn [String.prefix]. destruct (ascii_dec a b) as [->|Hne]; [tauto|].
  split; [discriminate|]. intros [Hab _]. contradiction.
Qed.

Lemma string_drop_length (k : nat) (s : string) :
  (String.length (string_drop k s) ≤ String.length s)%nat.
Proof.
  revert s. induction k as [|k IH]; intros [|c t]; cbn [string_drop String.length];
    try lia.
  specialize (IH t). lia.
Qed.

Section ReplaceAll.

Variables (old new : string) (q : ascii → bool).
Hypothesis old_apart : string_forall (fun c => negb (q c)) old = true.
Hypothesis new_within : string_forall q new = true.
Hypothesis new_nonempty : new ≠ "".
Hypothesis old_nonempty : old ≠ "".

(** Where the result of the replacement begins with a text that has no byte
    of the new text, the input begins with it too. *)
Lemma replace_keeps_prefix (s : string) :
  ∀ p, string_forall (fun c => negb (q c)) p = true →
       String.prefix p (strings.replace_from old new None 0 s) = true →
       String.prefix p s = true.
Proof using Type*.
  induction s as [|c t IH]; intros p Hp; [auto|].
  destruct p as [|a p]; [reflexivity|].
  cbn [strings.replace_from option_map].
  destruct (String.prefix old (String c t)) eqn:Hold.
  - destruct new as [|d new'] eqn:Hnew; [contradiction|].
    change (String d new' +:+ ?x) with (String d (new' +:+ x)).
    intros Hpre. apply prefix_cons in Hpre as [<- _].
    cbn [string_forall] in Hp, new_within.
    apply andb_prop in Hp as [Ha _]. apply andb_prop in new_within as [Hd _].
    rewrite Hd in Ha. discriminate.
  - intros Hpre. apply prefix_cons in Hpre as [<- Hpre].
    cbn [string_forall] in Hp. apply andb_prop in Hp as [_ Hp].
    apply prefix_cons. split; [reflexivity|]. now apply IH.
Qed.

Lemma contains_after_new (x : string) :
  contains old x = false →
  ∀ n, string_forall q n = true → contains old (n +:+ x) = false.
Proof using Type*.
  intros Hx n. induction n as [|d n IH]; intros Hn; [exact Hx|].
  change (String d n +:+ x) with (String d (n +:+ x)).
  cbn [string_forall] in Hn. apply andb_prop in Hn as [Hd Hn].
  cbn [contains]. rewrite (IH Hn), orb_false_r.
  destruct old as [|a o] eqn:Hold; [contradiction|].
  destruct (String.prefix (String a o) (String d (n +:+ x))) eqn:Hpre; [|reflexivity].
  apply prefix_cons in Hpre as [-> _].
  cbn [string_forall] in old_apart. apply andb_prop in old_apart as [Ha _].
  rewrite Hd in Ha. discriminate.
Qed.

Lemma replace_leaves_none_bounded (n : nat) :
  ∀ s, (String.length s ≤ n)%nat →
       contains old (strings.replace_from old new None 0 s) = false.
Proof using Type*.
  induction n as [|n IH]; intros [|c t] Hlen; cbn in Hlen; try lia.
  - cbn. destruct old; [contradiction|reflexivity].
  - cbn. destruct old; [contradiction|reflexivity].
  - pose proof (replace_keeps_prefix (String c t) old old_apart) as Hkeep.
    cbn [strings.replace_from option_map] in *.
    destruct (String.prefix old (String c t)) eqn:Hold.
    + rewrite replace_skip. apply contains_after_new; [|exact new_within].
      apply IH. pose proof (string_drop_length (Nat.pred (String.length old)) t). lia.
    + change (String.prefix old (String c (strings.replace_from old new None 0 t))
              || contains old (strings.replace_from old new None 0 t) = false).
      rewrite IH by lia. rewrite orb_false_r.
      apply not_true_is_false. intros Hpre. apply Hkeep in Hpre. discriminate.
Qed.

Lemma replace_leaves_none (s : string) :
  contains old (strings.Replace s old new (-1)) = false.
Proof using Type*. apply (replace_leaves_none_bounded (String.length s)). lia. Qed.

End ReplaceAll.

Lemma Itoa_digits (n : nat) :
  strconv.Itoa n ≠ "" ∧ string_forall fmt.is_digit (strconv.Itoa n) = true.
Proof.
  unfold strconv.Itoa, NilZero.string_of_uint.
  destruct (Nat.to_uint n) as [|d|d|d|d|d|d|d|d|d|d];
    (split; [discriminate|]); cbn [NilEmpty.string_of_uint string_forall];
    try reflexivity; apply uint_digits.
Qed.

(** X4. After the third substitution of [extractJS] no [t.length] is left in
    the script, whatever the page and the domain: every occurrence has
    become the decimal length of the domain, and the digits put in make no
    new one. *)
Theorem stage3_leaves_no_placeholder (domain js : string) :
  contains "t.length" (stage3 domain js) = false.
Proof.
  unfold stage3.
  apply (replace_leaves_none "t.length" (strconv.Itoa (String.length domain)) fmt.is_digit).
  - reflexivity.
  - apply Itoa_digits.
  - apply Itoa_digits.
  - discriminate.
Qed.

(** ** The request sent first *)

Section Further.

Context {W J : Type} `{!RoundTripper W} `{!CookieJar J} `{!NetHTTP} `{!Otto}.

Lemma AddCookie_Header (r : http.Request) (c : http.Cookie) :
  http.Header (AddCookie r c) =
    <["Cookie" := [match http.Get (http.Header r) "Cookie" with
                   | EmptyString => cookie_pair c
                   | old => old +:+ "; " +:+ cookie_pair c
                   end]]> (http.Header r).
Proof.
  unfold AddCookie, cookie_pair.
  destruct (http.Get (http.Header r) "Cookie"); reflexivity.
Qed.

Lemma AddCookie_fields (r : http.Request) (c : http.Cookie) :
  http.Method (AddCookie r c) = http.Method r ∧
  http.URL (AddCookie r c) = http.URL r ∧
  http.Body (AddCookie r c) = http.Body r ∧
  http.Host (AddCookie r c) = http.Host r.
Proof.
  unfold AddCookie. destruct (http.Get (http.Header r) "Cookie"); auto.
Qed.

Lemma AddCookies_other (cs : list http.Cookie) :
  ∀ (r : http.Request) (k : string),
    k ≠ "Cookie" →
    http.Header (foldl AddCookie r cs) !! k = http.Header r !! k.
Proof.
  induction cs as [|c cs IH]; intros r k Hk; [reflexivity|].
  cbn [foldl]. rewrite IH by exact Hk. rewrite AddCookie_Header.
  now rewrite lookup_insert_ne by congruence.
Qed.

Lemma AddCookies_fields (cs : list http.Cookie) :
  ∀ r : http.Request,
    http.Method (foldl AddCookie r cs) = http.Method r ∧
    http.URL (foldl AddCookie r cs) = http.URL r ∧
    http.Body (foldl AddCookie r cs) = http.Body r ∧
    http.Host (foldl AddCookie r cs) = http.Host r.
Proof.
  induction cs as [|c cs IH]; intros r; [auto|].
  cbn [foldl]. destruct (IH (AddCookie r c)) as (-> & -> & -> & ->).
  apply AddCookie_fields.
Qed.

Lemma Get_lookup (h : gmap string (list string)) (key : string) :
  http.CanonicalMIMEHeaderKey key = key →
  http.Get h key = hd "" (default [] (h !! key)).
Proof. unfold http.Get, http.Values. now intros ->. Qed.

Lemma app_cons_nonempty (a b : string) (x : ascii) : a +:+ String x b ≠ "".
Proof. destruct a; discriminate. Qed.

Lemma cookie_pair_nonempty (c : http.Cookie) : cookie_pair c ≠ "".
Proof. unfold cookie_pair. apply app_cons_nonempty. Qed.

Lemma AddCookies_Cookie (cs : list http.Cookie) :
  ∀ r : http.Request,
    http.Get (http.Header (foldl AddCookie r cs)) "Cookie" =
      join_semi (nonempty_list (http.Get (http.Header r) "Cookie") ++ map cookie_pair cs).
Proof.
  induction cs as [|c cs IH]; intros r.
  - cbn [foldl map]. rewrite app_nil_r.
    now destruct (http.Get (http.Header r) "Cookie").
  - cbn [foldl map]. rewrite IH.
    assert (Hnew : http.Get (http.Header (AddCookie r c)) "Cookie" =
                   match http.Get (http.Header r) "Cookie" with
                   | EmptyString => cookie_pair c
                   | old => old +:+ "; " +:+ cookie_pair c
                   end).
    { rewrite AddCookie_Header. rewrite (Get_lookup _ "Cookie") by reflexivity.
      now rewrite lookup_insert_eq. }
    rewrite Hnew. pose proof (cookie_pair_nonempty c) as Hne.
    destruct (http.Get (http.Header r) "Cookie") as [|x old].
    + destruct (cookie_pair c); [contradiction|reflexivity].
    + reflexivity.
Qed.

(** The request [RoundTrip] adds the cookies to: the caller's, with the
    default user agent when it has none. *)
Lemma agent_keeps_Cookie (r : http.Request) :
  http.Get (http.Header
              match http.Get (http.Header r) "User-Agent" with
              | EmptyString =>
                  http.with_Header (http.Set_ (http.Header r) "User-Agent" UserAgent) r
              | _ => r
              end) "Cookie"
  = http.Get (http.Header r) "Cookie".
Proof.
  destruct (http.Get (http.Header r) "User-Agent"); [|reflexivity].
  cbn [http.Header http.with_Header]. rewrite !(Get_lookup _ "Cookie") by reflexivity.
  unfold http.Set_. change (http.CanonicalMIMEHeaderKey "User-Agent") with "User-Agent".
  now rewrite lookup_insert_ne by discriminate.
Qed.

(** X5. The request sent first has the caller's user agent; only when the
    caller gives none does it have the default one.  The cookies of the jar
    do not touch it. *)
Theorem outgoing_user_agent (r : http.Request) (cs : list http.Cookie) :
  http.Get (http.Header (outgoing r cs)) "User-Agent" =
    match http.Get (http.Header r) "User-Agent" with
    | EmptyString => UserAgent
    | given => given
    end.
Proof.
  unfold outgoing. rewrite (Get_lookup _ "User-Agent") by reflexivity.
  rewrite AddCookies_other by discriminate.
  destruct (http.Get (http.Header r) "User-Agent") as [|x ua] eqn:Hua.
  - cbn [http.Header http.with_Header]. unfold http.Set_.
    change (http.CanonicalMIMEHeaderKey "User-Agent") with "User-Agent".
    now rewrite lookup_insert_eq.
  - rewrite <- Hua. now rewrite (Get_lookup _ "User-Agent") by reflexivity.
Qed.

(** X6. The [Cookie] header of the request sent first is the caller's, if it
    is not empty, followed by the cookies of the jar in their order, each as
    name, equals sign and value, all joined by a semicolon and a space. *)
Theorem outgoing_cookie_header (r : http.Request) (cs : list http.Cookie) :
  http.Get (http.Header (outgoing r cs)) "Cookie" =
    join_semi (nonempty_list (http.Get (http.Header r) "Cookie") ++ map cookie_pair cs).
Proof.
  unfold outgoing. rewrite AddCookies_Cookie.
  now rewrite agent_keeps_Cookie.
Qed.

(** X7. Apart from the headers [User-Agent] and [Cookie], the request sent
    first is the caller's: method, URL, body and host are the same, and so
    are the values of every other header. *)
Theorem outgoing_frame (r : http.Request) (cs : list http.Cookie) :
  http.Method (outgoing r cs) = http.Method r ∧
  http.URL (outgoing r cs) = http.URL r ∧
  http.Body (outgoing r cs) = http.Body r ∧
  http.Host (outgoing r cs) = http.Host r ∧
  ∀ key,
    http.CanonicalMIMEHeaderKey key ≠ "User-Agent" →
    http.CanonicalMIMEHeaderKey key ≠ "Cookie" →
    http.Values (http.Header (outgoing r cs)) key = http.Values (http.Header r) key.
Proof.
  unfold outgoing.
  destruct (AddCookies_fields cs
              match http.Get (http.Header r) "User-Agent" with
              | EmptyString =>
                  http.with_Header (http.Set_ (http.Header r) "User-Agent" UserAgent) r
              | _ => r
              end) as (-> & -> & -> & ->).
  repeat split; try (destruct (http.Get (http.Header r) "User-Agent"); reflexivity).
  intros key Hua Hck. unfold http.Values. rewrite AddCookies_other by exact Hck.
  destruct (http.Get (http.Header r) "User-Agent"); [|reflexivity].
  cbn [http.Header http.with_Header]. unfold http.Set_.
  change (http.CanonicalMIMEHeaderKey "User-Agent") with "User-Agent".
  now rewrite lookup_insert_ne by congruence.
Qed.

(** ** The paths of [RoundTrip] *)

Ltac run_RoundTrip :=
  unfold RoundTrip, bind, Cookies, upstream, lift, Sleep, SetCookies, ret, first_request in *.

(** X8. When the transport fails on the first round trip, [RoundTrip]
    returns its error and no response; the transport has been called once,
    the jar is as it was. *)
Theorem RoundTrip_first_error (r : http.Request) (w : World) (e : error) (wire' : W) :
  upstream_RoundTrip (first_request r w) (wire w) = (Err e, wire') →
  RoundTrip r w =
    (Returns (Err e),
     mkWorld wire' (cookies w) (trace w ++ [RoundTripped (first_request r w)])).
Proof. intros Hup. run_RoundTrip. now rewrite Hup. Qed.

(** X9. When the answer request cannot be built for a challenge page,
    [RoundTrip] ends as [buildAnswerRequest] does: it returns its error, or
    blocks or crashes with it.  The challenge response is not returned, the
    transport has been called once, and neither sleep nor jar update has
    happened. *)
Theorem RoundTrip_build_failure (r : http.Request) (w : World)
    (resp : http.Response) (wire' : W) :
  upstream_RoundTrip (first_request r w) (wire w) = (Ok resp, wire') →
  is_challenge resp = true →
  let after := mkWorld wire' (cookies w) (trace w ++ [RoundTripped (first_request r w)]) in
  (∀ e, buildAnswerRequest resp = Returns (Err e) →
        RoundTrip r w = (Returns (Err e), after)) ∧
  (buildAnswerRequest resp = Blocks → RoundTrip r w = (Blocks, after)) ∧
  (∀ p, buildAnswerRequest resp = Crashes p → RoundTrip r w = (Crashes p, after)).
Proof.
  intros Hup Hch. cbv zeta. run_RoundTrip. rewrite Hup, Hch.
  repeat split; [intros e Hb|intros Hb|intros p Hb]; now rewrite Hb.
Qed.

(** X10. When the transport fails on the submission of the answer,
    [RoundTrip] returns that error and no response, after the first round
    trip, the sleep of five seconds and the second round trip; the jar is as
    it was. *)
Theorem RoundTrip_second_error (r : http.Request) (w : World)
    (resp : http.Response) (wire' : W) (req : http.Request) (e : error) (wire'' : W) :
  upstream_RoundTrip (first_request r w) (wire w) = (Ok resp, wire') →
  is_challenge resp = true →
  buildAnswerRequest resp = Returns (Ok req) →
  upstream_RoundTrip req wire' = (Err e, wire'') →
  RoundTrip r w =
    (Returns (Err e),
     mkWorld wire'' (cookies w)
       (trace w ++ [RoundTripped (first_request r w); Slept 5; RoundTripped req])).
Proof.
  intros Hup Hch Hb Hup2. run_RoundTrip. rewrite Hup, Hch, Hb. cbn.
  rewrite Hup2. cbn. now rewrite <- !app_assoc.
Qed.

(** X11. When the answer is submitted, [RoundTrip] returns the response to
    it as it is, whatever its status: a second challenge is not answered
    again.  The sleep of five seconds lies between the two round trips, and
    the jar takes the cookies of the second response when there are any. *)
Theorem RoundTrip_solved (r : http.Request) (w : World)
    (resp : http.Response) (wire' : W) (req : http.Request)
    (resp2 : http.Response) (wire'' : W) :
  upstream_RoundTrip (first_request r w) (wire w) = (Ok resp, wire') →
  is_challenge resp = true →
  buildAnswerRequest resp = Returns (Ok req) →
  upstream_RoundTrip req wire' = (Ok resp2, wire'') →
  RoundTrip r w =
    (Returns (Ok resp2),
     mkWorld wire''
       match readSetCookies (http.RespHeader resp2) with
       | [] => cookies w
       | cs => jar_SetCookies (cookies w) (http.URL (http.Sent resp2)) cs
       end
       (trace w ++ [RoundTripped (first_request r w); Slept 5; RoundTripped req])).
Proof.
  intros Hup Hch Hb Hup2. run_RoundTrip. rewrite Hup, Hch, Hb. cbn.
  rewrite Hup2. cbn. destruct (readSetCookies _); cbn; now rewrite <- !app_assoc.
Qed.

(** X12. The cookies of a solved challenge are sent with the next request:
    when the jar gives them back for the URL of the next request, its
    [Cookie] header, as sent first, holds them after the caller's own. *)
Theorem session_cookies_sent (r next : http.Request) (w : World)
    (resp : http.Response) (wire' : W) (req : http.Request)
    (resp2 : http.Response) (wire'' : W) (c : http.Cookie) (cs : list http.Cookie) :
  upstream_RoundTrip (first_request r w) (wire w) = (Ok resp, wire') →
  is_challenge resp = true →
  buildAnswerRequest resp = Returns (Ok req) →
  upstream_RoundTrip req wire' = (Ok resp2, wire'') →
  readSetCookies (http.RespHeader resp2) = c :: cs →
  jar_Cookies (jar_SetCookies (cookies w) (http.URL (http.Sent resp2)) (c :: cs))
              (http.URL next) = c :: cs →
  http.Get (http.Header (first_request next (RoundTrip r w).2)) "Cookie" =
    join_semi (nonempty_list (http.Get (http.Header next) "Cookie")
               ++ map cookie_pair (c :: cs)).
Proof.
  intros Hup Hch Hb Hup2 Hcs Hjar. run_RoundTrip. rewrite Hup, Hch, Hb. cbn.
  rewrite Hup2. cbn. rewrite Hcs. cbn. rewrite Hjar.
  unfold outgoing. rewrite AddCookies_Cookie.
  now rewrite agent_keeps_Cookie.
Qed.

(** ** The failures of [buildAnswerRequest] and of [evaluateJS] *)

(** X13. [buildAnswerRequest] returns an error for four reasons only, tried
    in this order: the body cannot be read, the page has no match of the
    script expression, the evaluation returns an error, the text of the
    target URL does not parse.  A missing hidden field is none of them, and
    neither is a result that is not a number. *)
Theorem buildAnswerRequest_errors (resp : http.Response) (e : error) :
  buildAnswerRequest resp = Returns (Err e) →
  let body := http.RespBody resp in
  let domain := url.Host (http.URL (http.Sent resp)) in
  http.ReadErr resp = Some e ∨
  (http.ReadErr resp = None ∧ FindStringSubmatch jsRE body = [] ∧ e = errNotFound) ∨
  (∃ js num,
     http.ReadErr resp = None ∧ extractJS body domain = Ok js ∧
     evaluateJS js = Returns (num, Some e)) ∨
  (∃ js num,
     http.ReadErr resp = None ∧ extractJS body domain = Ok js ∧
     evaluateJS js = Returns (num, None) ∧
     url_Parse (URL_String (answerURL resp (fmt.Sprintf_10f num))) = Err e).
Proof.
  unfold buildAnswerRequest, NewRequest. cbv zeta.
  destruct (http.ReadErr resp) as [e0|]; [intros [= ->]; now left|].
  destruct (extractJS _ _) as [js|e0] eqn:Hex.
  - destruct (evaluateJS js) as [[num [e0|]]| |] eqn:Hev; try discriminate.
    + intros [= ->]. right. right. left. eauto.
    + destruct (url_Parse _) as [parsed|e0] eqn:Hp; [discriminate|].
      intros [= ->]. right. right. right. eauto 10.
  - intros [= ->]. right. left. unfold extractJS in Hex.
    destruct (FindStringSubmatch jsRE (http.RespBody resp)); [|discriminate].
    now inversion Hex.
Qed.

(** X14. [evaluateJS] returns a number without an error exactly when the
    run of the script returned a value before the timer fired and the
    conversion of that value gave the number without an error: after a
    timeout, a panic or an error of the engine there is no answer. *)
Theorem evaluateJS_answer (js : string) (num : float) :
  evaluateJS js = Returns (num, None) ↔
  ∃ v, sandbox js = ret_first (run_returns (Ok v)) ∧ ToFloat v = (num, None).
Proof.
  unfold evaluateJS, executeUnsafeJS, recovered. split.
  - destruct (sandbox js) as [[[v|e]|p]|[|]]; cbn.
    + destruct (ToFloat v) as [x err] eqn:Hv. cbn. intros [= -> ->]. eauto.
    + discriminate.
    + destruct (is_errHalt p); discriminate.
    + discriminate.
    + discriminate.
  - intros (v & -> & Hv). now rewrite Hv.
Qed.


Lemma Sprintf_10f_nonfinite (x : float) :
  fmt.is_finite x = false →
  fmt.Sprintf_10f x = "NaN" ∨ fmt.Sprintf_10f x = "+Inf" ∨ fmt.Sprintf_10f x = "-Inf".
Proof.
  unfold fmt.is_finite, fmt.Sprintf_10f, fmt.fixed.
  destruct (Prim2SF x) as [sg|[|]| |sg m e]; try discriminate; auto.
Qed.

(** X16. A result that is not a finite number is submitted all the same:
    the answer request is built, and its [jschl_answer] is [NaN], [+Inf] or
    [-Inf]. *)
Theorem nonfinite_answer_submitted (resp : http.Response) (js : string)
    (num : float) (parsed : url.URL) :
  http.ReadErr resp = None →
  extractJS (http.RespBody resp) (url.Host (http.URL (http.Sent resp))) = Ok js →
  evaluateJS js = Returns (num, None) →
  fmt.is_finite num = false →
  url_Parse (URL_String (answerURL resp (fmt.Sprintf_10f num))) = Ok parsed →
  buildAnswerRequest resp = Returns (Ok (built resp parsed)) ∧
  ∃ text, answerParams (http.RespBody resp) (fmt.Sprintf_10f num) !! "jschl_answer"
            = Some [text] ∧
          (text = "NaN" ∨ text = "+Inf" ∨ text = "-Inf").
Proof.
  intros Hread Hex Hev Hfin Hp.
  split; [now apply (buildAnswerRequest_built resp js num parsed)|].
  exists (fmt.Sprintf_10f num). split; [apply answerParams_answer|].
  now apply Sprintf_10f_nonfinite.
Qed.

(** ** The header and the query of the answer request *)

Lemma add_all_keys (vals : list string) :
  ∀ (h : gmap string (list string)) (key c : string),
    is_Some (foldl (fun h val => http.Add h key val) h vals !! c) →
    is_Some (h !! c) ∨ (c = http.CanonicalMIMEHeaderKey key ∧ vals ≠ []).
Proof.
  induction vals as [|v vals IH]; intros h key c; cbn [foldl]; [auto|].
  intros Hc. apply IH in Hc as [Hc|[-> _]]; [|right; split; [reflexivity|discriminate]].
  unfold http.Add in Hc.
  destruct (decide (c = http.CanonicalMIMEHeaderKey key)) as [->|Hne].
  - right. split; [reflexivity|discriminate].
  - left. now rewrite lookup_insert_ne in Hc by congruence.
Qed.

Lemma copyHeader_keys (src dst : gmap string (list string)) (c : string) :
  is_Some (copyHeader src dst !! c) →
  is_Some (dst !! c) ∨
  ∃ key vals, src !! key = Some vals ∧ vals ≠ [] ∧ c = http.CanonicalMIMEHeaderKey key.
Proof.
  unfold copyHeader. revert c.
  apply (map_fold_weak_ind
           (fun r (m : gmap string (list string)) =>
              ∀ c, is_Some (r !! c) →
                   is_Some (dst !! c) ∨
                   ∃ key vals, m !! key = Some vals ∧ vals ≠ [] ∧
                               c = http.CanonicalMIMEHeaderKey key)).
  - auto.
  - intros i x m r Hi IH c Hc. apply add_all_keys in Hc as [Hc|[-> Hx]].
    + apply IH in Hc as [Hc|(key & vals & Hk & Hv & ->)]; [now left|].
      right. exists key, vals. split; [|auto].
      rewrite lookup_insert_ne; [exact Hk|]. intros <-. congruence.
    + right. exists i, x. now rewrite lookup_insert_eq.
Qed.

(** X17. The header of the answer request holds nothing of its own making
    but the [Referer]: every other key is the canonical form of a key of the
    original request that has at least one value. *)
Theorem answer_request_header_keys (resp : http.Response) (req : http.Request) :
  buildAnswerRequest resp = Returns (Ok req) →
  ∀ c, is_Some (http.Header req !! c) →
       c = "Referer" ∨
       ∃ key vals, http.Header (http.Sent resp) !! key = Some vals ∧ vals ≠ [] ∧
                   c = http.CanonicalMIMEHeaderKey key.
Proof.
  intros Hb c. apply buildAnswerRequest_Ok in Hb as (js & num & parsed & _ & _ & _ & _ & ->).
  unfold built. cbn [http.Header]. unfold http.Set_.
  change (http.CanonicalMIMEHeaderKey "Referer") with "Referer".
  destruct (decide (c = "Referer")) as [->|Hne]; [now left|].
  rewrite lookup_insert_ne by congruence. intros Hc.
  apply copyHeader_keys in Hc as [Hc|Hc]; [|now right].
  rewrite lookup_empty in Hc. now destruct Hc.
Qed.

Lemma QueryEscape_app (a b : string) :
  url.QueryEscape (a +:+ b) = url.QueryEscape a +:+ url.QueryEscape b.
Proof.
  induction a as [|c a IH]; [reflexivity|].
  change (String c a +:+ b) with (String c (a +:+ b)).
  cbn [url.QueryEscape]. rewrite IH.
  destruct (url.unreserved c); [reflexivity|]. destruct (byte_is 32 c); reflexivity.
Qed.

Lemma QueryEscape_unreserved (s : string) :
  string_forall url.unreserved s = true → url.QueryEscape s = s.
Proof.
  induction s as [|c s IH]; [reflexivity|]. cbn [string_forall url.QueryEscape].
  intros Hs. apply andb_prop in Hs as [Hc Hs]. now rewrite Hc, IH.
Qed.

Lemma string_forall_impl (p q : ascii → bool) (s : string) :
  (∀ c, p c = true → q c = true) →
  string_forall p s = true → string_forall q s = true.
Proof.
  intros Hpq. induction s as [|c s IH]; [reflexivity|]. cbn [string_forall].
  intros Hs. apply andb_prop in Hs as [Hc Hs]. now rewrite (Hpq c Hc), IH.
Qed.

Lemma word_unreserved (c : ascii) : regexp.word c = true → url.unreserved c = true.
Proof.
  unfold regexp.word, url.unreserved.
  destruct (byte_in 48 57 c), (byte_in 65 90 c), (byte_in 97 122 c), (byte_is 95 c),
           (byte_is 45 c), (byte_is 46 c), (byte_is 126 c);
    cbn; try discriminate; reflexivity.
Qed.

Lemma digit_unreserved (c : ascii) : fmt.is_digit c = true → url.unreserved c = true.
Proof. unfold fmt.is_digit, url.unreserved. now intros ->. Qed.

Lemma Encode_answerParams (body answer : string) :
  url.Encode (answerParams body answer) =
    url.join_amp
      (("jschl_answer=" +:+ url.QueryEscape answer)
       :: match FindStringSubmatch jschlRE body with
          | [] => []
          | m => ["jschl_vc=" +:+ url.QueryEscape (nth 1 m "")]
          end
       ++ match FindStringSubmatch passRE body with
          | [] => []
          | m => ["pass=" +:+ url.QueryEscape (nth 1 m "")]
          end).
Proof.
  unfold answerParams.
  destruct (FindStringSubmatch jschlRE body) as [|m0 ms],
           (FindStringSubmatch passRE body) as [|p0 ps];
    vm_compute; reflexivity.
Qed.

Lemma Sprintf_10f_unreserved (num : float) :
  fmt.is_finite num = true →
  url.QueryEscape (fmt.Sprintf_10f num) = fmt.Sprintf_10f num.
Proof.
  intros Hfin. apply QueryEscape_unreserved.
  destruct (Sprintf_10f_finite num Hfin)
    as (sgn & int & frac & -> & Hsgn & _ & Hint & _ & Hfrac).
  rewrite !string_forall_app.
  rewrite (string_forall_impl _ _ int digit_unreserved Hint).
  rewrite (string_forall_impl _ _ frac digit_unreserved Hfrac).
  destruct Hsgn as [-> | ->]; reflexivity.
Qed.

(** X18. The query of the answer request is exactly this text, whatever the
    order the parameters were set in: [jschl_answer] first, then [jschl_vc]
    if the page has the field, then [pass] if the page has the field, each
    as name, equals sign and escaped value, joined by [&]. *)
Theorem answer_query_text (resp : http.Response) (answer : string) :
  let body := http.RespBody resp in
  url.RawQuery (answerURL resp answer) =
    url.join_amp
      (("jschl_answer=" +:+ url.QueryEscape answer)
       :: match FindStringSubmatch jschlRE body with
          | [] => []
          | m => ["jschl_vc=" +:+ url.QueryEscape (nth 1 m "")]
          end
       ++ match FindStringSubmatch passRE body with
          | [] => []
          | m => ["pass=" +:+ url.QueryEscape (nth 1 m "")]
          end).
Proof.
  cbv zeta. unfold answerURL. cbn [url.RawQuery url.with_RawQuery].
  apply Encode_answerParams.
Qed.

(** X19. A finite answer and the [jschl_vc] token are sent as they are:
    the escaping of the query changes neither the digits, point and minus
    sign of the one nor the word characters of the other.  Only the [pass]
    token may be changed by it. *)
Theorem answer_query_verbatim (resp : http.Response) (num : float) (whole vc : string) :
  fmt.is_finite num = true →
  FindStringSubmatch jschlRE (http.RespBody resp) = [whole; vc] →
  url.RawQuery (answerURL resp (fmt.Sprintf_10f num)) =
    url.join_amp
      (("jschl_answer=" +:+ fmt.Sprintf_10f num)
       :: ["jschl_vc=" +:+ vc]
       ++ match FindStringSubmatch passRE (http.RespBody resp) with
          | [] => []
          | m => ["pass=" +:+ url.QueryEscape (nth 1 m "")]
          end).
Proof.
  intros Hfin Hvc. unfold answerURL. cbn [url.RawQuery url.with_RawQuery].
  rewrite Encode_answerParams, Hvc. cbn [nth].
  rewrite (Sprintf_10f_unreserved num Hfin).
  destruct (jschlRE_sound (http.RespBody resp))
    as [Hnone|(before & vc' & after & _ & Hfind & _ & Hword)]; [congruence|].
  rewrite Hvc in Hfind. injection Hfind as _ <-.
  rewrite (QueryEscape_unreserved vc
             (string_forall_impl _ _ vc word_unreserved Hword)).
  reflexivity.
Qed.

End Further.

(** * The further properties on the fixtures *)

Lemma RoundTrip_first_error_witness :
  RoundTrip (example_request "GET") (start []) =
    (Returns (Err (foreignError "EOF")), mkWorld [] ∅ [RoundTripped fixture_first]).
Proof.
  apply (RoundTrip_first_error (example_request "GET") (start [])). reflexivity.
Defined.

Lemma RoundTrip_build_failure_witness :
  RoundTrip (example_request "GET") (start [challenge_with rejected_page; cleared]) =
    (Returns (Err (foreignError "SyntaxError")),
     mkWorld [cleared] ∅ [RoundTripped fixture_first]).
Proof.
  destruct (RoundTrip_build_failure (example_request "GET")
              (start [challenge_with rejected_page; cleared])
              (challenged "GET" rejected_page) [cleared]) as (Herr & _ & _).
  - reflexivity.
  - vm_compute. reflexivity.
  - apply Herr. vm_compute. reflexivity.
Defined.

Lemma RoundTrip_second_error_witness :
  RoundTrip (example_request "GET") (start [challenge_with fixture_body]) =
    (Returns (Err (foreignError "EOF")),
     mkWorld [] ∅ [RoundTripped fixture_first; Slept 5; RoundTripped fixture_answer]).
Proof.
  apply (RoundTrip_second_error (example_request "GET")
           (start [challenge_with fixture_body])
           (challenged "GET" fixture_body) [] fixture_answer).
  - reflexivity.
  - vm_compute. reflexivity.
  - vm_compute. reflexivity.
  - reflexivity.
Defined.

Lemma RoundTrip_solved_witness :
  is_challenge (challenged "GET" fixture_body) = true ∧
  RoundTrip (example_request "GET")
            (start [challenge_with fixture_body; challenge_with fixture_body]) =
    (Returns (challenge_with fixture_body fixture_answer),
     mkWorld [] ∅ [RoundTripped fixture_first; Slept 5; RoundTripped fixture_answer]).
Proof.
  split; [vm_compute; reflexivity|].
  rewrite (RoundTrip_solved (example_request "GET")
             (start [challenge_with fixture_body; challenge_with fixture_body])
             (challenged "GET" fixture_body) [challenge_with fixture_body] fixture_answer
             (http.mkResponse 503 (<["Server" := ["cloudflare-nginx"]]> ∅) fixture_body None
                fixture_answer) []).
  - vm_compute. reflexivity.
  - reflexivity.
  - vm_compute. reflexivity.
  - vm_compute. reflexivity.
  - reflexivity.
Defined.

Lemma session_cookies_sent_witness :
  http.Get
    (http.Header
       (first_request (example_request "GET")
          (RoundTrip (example_request "GET")
                     (start [challenge_with fixture_body; cleared])).2))
    "Cookie" = "cf_clearance=0123abcd".
Proof.
  rewrite (session_cookies_sent (example_request "GET") (example_request "GET")
             (start [challenge_with fixture_body; cleared])
             (challenged "GET" fixture_body) [cleared] fixture_answer
             (http.mkResponse 200
                (<["Set-Cookie" := ["cf_clearance=0123abcd"]]>
                   (<["Server" := ["cloudflare-nginx"]]> ∅))
                "<html>welcome</html>" None fixture_answer) []
             (http.mkCookie "cf_clearance" "0123abcd") []).
  - vm_compute. reflexivity.
  - reflexivity.
  - vm_compute. reflexivity.
  - vm_compute. reflexivity.
  - reflexivity.
  - vm_compute. reflexivity.
  - vm_compute. reflexivity.
Defined.

Lemma buildAnswerRequest_errors_witness :
  let resp := challenged "GET" plain_body in
  let body := http.RespBody resp in
  let domain := url.Host (http.URL (http.Sent resp)) in
  http.ReadErr resp = Some errNotFound ∨
  (http.ReadErr resp = None ∧ FindStringSubmatch jsRE body = [] ∧ errNotFound = errNotFound) ∨
  (∃ js num,
     http.ReadErr resp = None ∧ extractJS body domain = Ok js ∧
     evaluateJS js = Returns (num, Some errNotFound)) ∨
  (∃ js num,
     http.ReadErr resp = None ∧ extractJS body domain = Ok js ∧
     evaluateJS js = Returns (num, None) ∧
     url_Parse (URL_String (answerURL resp (fmt.Sprintf_10f num))) = Err errNotFound).
Proof.
  cbv zeta. apply (buildAnswerRequest_errors (challenged "GET" plain_body) errNotFound).
  vm_compute. reflexivity.
Defined.

Lemma nonfinite_answer_submitted_witness :
  extractJS nan_page "example.com" = Ok nan_script ∧
  buildAnswerRequest (challenged "GET" nan_page) =
    Returns (Ok (built (challenged "GET" nan_page) nan_target)) ∧
  url.RawQuery (http.URL (built (challenged "GET" nan_page) nan_target))
    = "jschl_answer=NaN".
Proof.
  split; [vm_compute; reflexivity|].
  destruct (nonfinite_answer_submitted (challenged "GET" nan_page) nan_script
              nan nan_target) as [Hb _].
  - reflexivity.
  - vm_compute. reflexivity.
  - vm_compute. reflexivity.
  - vm_compute. reflexivity.
  - vm_compute. reflexivity.
  - split; [exact Hb|reflexivity].
Defined.

Lemma answer_request_header_keys_witness :
  is_Some (http.Header fixture_answer !! "Accept") ∧
  ("Accept" = "Referer" ∨
   ∃ key vals,
     http.Header (http.Sent (challenged "GET" fixture_body)) !! key = Some vals ∧
     vals ≠ [] ∧ "Accept" = http.CanonicalMIMEHeaderKey key).
Proof.
  assert (Hin : is_Some (http.Header fixture_answer !! "Accept")).
  { vm_compute. eauto. }
  split; [exact Hin|].
  apply (answer_request_header_keys (challenged "GET" fixture_body) fixture_answer).
  - vm_compute. reflexivity.
  - exact Hin.
Defined.

Lemma answer_query_verbatim_witness :
  url.RawQuery (answerURL (challenged "GET" fixture_body) (fmt.Sprintf_10f 12345.6%float)) =
    "jschl_answer=12345.6000000000&jschl_vc=f3b2a8c4e1d09a7b6c5d4e3f2a1b0c9d&pass=1530000000.123-AbCdEfGhIj".
Proof.
  rewrite (answer_query_verbatim (challenged "GET" fixture_body) 12345.6%float
             (field_open "jschl_vc" +:+ "f3b2a8c4e1d09a7b6c5d4e3f2a1b0c9d" +:+ dq)
             "f3b2a8c4e1d09a7b6c5d4e3f2a1b0c9d").
  - vm_compute. reflexivity.
  - vm_compute. reflexivity.
  - vm_compute. reflexivity.
Defined.
